(** * bubbles-tree: a shallow embedding of the tree component

    The development follows the two Go files of the package:

    - [node.go]: the [Node] interface, the [NodeState] bit mask and the
      traversal functions [at], [flatten], [countNodesBelow], [getDepth];
    - [tree.go]: the Bubble Tea [Model] with its cursor, its viewport and
      the rendering of the branch glyphs.

    Go values are modelled as the code has them: [int] is a 64-bit two's
    complement integer carried in [Z] with its wrap-around written out,
    [NodeState] is an unsigned bit mask carried in [N], a [Node] is a
    reference to a mutable object, so the state bit masks live in a store
    indexed by node identity, and a method call on a nil [Node] panics. *)

From Stdlib Require Import ZArith NArith Bool String List Lia.
Import ListNotations.

Local Open Scope Z_scope.

(* ================================================================== *)
(** ** Go integers *)

Module GoInt.

Definition int_min : Z := - 2 ^ 63.
Definition int_max : Z := 2 ^ 63 - 1.

(** The value an [int] holds after an arithmetic result [z]. *)
Definition wrap (z : Z) : Z := (z - int_min) mod 2 ^ 64 + int_min.

Definition add (a b : Z) : Z := wrap (a + b).
Definition sub (a b : Z) : Z := wrap (a - b).

(** Go's [/] on [int] truncates toward zero. *)
Definition div (a b : Z) : Z := wrap (Z.quot a b).

Definition in_range (z : Z) : Prop := int_min <= z <= int_max.

End GoInt.

(* ================================================================== *)
(** ** node.go: node states *)

(** [type NodeState uint16]; the bit operations used by the package never
    leave the 16 low bits. *)
Definition NodeState := N.

(** The constant block starts with [NodeNone] at [iota = 0], so the first
    flag, [1 << iota] at [iota = 1], is 2. *)
Definition NodeNone : NodeState := 0%N.
Definition NodeSelected : NodeState := 2%N.
Definition NodeCollapsible : NodeState := 4%N.
Definition NodeCollapsed : NodeState := 8%N.
Definition NodeHidden : NodeState := 16%N.
Definition NodeLastChild : NodeState := 32%N.
Definition NodeHasPreviousSibling : NodeState := 64%N.

(** [func (s NodeState) Is(st NodeState) bool] *)
Definition Is (s st : NodeState) : bool := N.eqb (N.land s st) st.

(* ================================================================== *)
(** ** node.go: nodes *)

(** A [Node] is a reference to an object owned by the data provider.  The
    owning relation [Children()] makes the provider's data a finite forest,
    an inductive type here; [nodeId] is the identity of the object.
    [Nodes] is the slice type [[]Node]. *)
Inductive Node : Type :=
| MkNode (nodeId : nat) (children : Nodes)
with Nodes : Type :=
| NoNodes
| ConsNode (n : Node) (rest : Nodes).

Definition nodeId (n : Node) : nat :=
  match n with MkNode i _ => i end.

(** [Children()] *)
Definition Children (n : Node) : Nodes :=
  match n with MkNode _ c => c end.

Fixpoint elems (ns : Nodes) : list Node :=
  match ns with
  | NoNodes => []
  | ConsNode n rest => n :: elems rest
  end.

Fixpoint of_list (l : list Node) : Nodes :=
  match l with
  | [] => NoNodes
  | n :: rest => ConsNode n (of_list rest)
  end.

(** [append(a, b...)] *)
Fixpoint append (a b : Nodes) : Nodes :=
  match a with
  | NoNodes => b
  | ConsNode n rest => ConsNode n (append rest b)
  end.

(** [len(ns)] *)
Definition len (ns : Nodes) : Z := Z.of_nat (length (elems ns)).

(** The store of the mutable [state] fields, by node identity: [State()]
    reads it and [SetState] writes it. *)
Definition States := nat -> NodeState.

Definition State (st : States) (n : Node) : NodeState := st (nodeId n).

Definition SetState (n : Node) (s : NodeState) (st : States) : States :=
  fun k => if Nat.eqb k (nodeId n) then s else st k.

Definition isHidden (st : States) (n : Node) : bool :=
  Is (State st n) NodeHidden.

Definition isExpanded (st : States) (n : Node) : bool :=
  negb (Is (State st n) NodeCollapsed).

Definition isCollapsible (st : States) (n : Node) : bool :=
  Is (State st n) NodeCollapsible.

Definition isLastNode (st : States) (n : Node) : bool :=
  Is (State st n) NodeLastChild.

Definition isSelected (st : States) (n : Node) : bool :=
  Is (State st n) NodeSelected.

Definition hasPreviousSibling (st : States) (n : Node) : bool :=
  Is (State st n) NodeHasPreviousSibling.

Definition hasChildren (n : Node) : bool := 0 <? len (Children n).

(* ------------------------------------------------------------------ *)
(** *** Traversal *)

(** [countNodesBelow]: the loop adds the recursive results to [count] and
    nothing else. *)
Fixpoint countNodesBelow (n : Node) : Z :=
  match n with
  | MkNode _ c => countNodesBelow_loop c 0
  end
with countNodesBelow_loop (ns : Nodes) (count : Z) : Z :=
  match ns with
  | NoNodes => count
  | ConsNode child rest =>
      countNodesBelow_loop rest (GoInt.add count (countNodesBelow child))
  end.

(** The loop of [at]: [j] is the running index, [ns] what is left of the
    slice; [None] is the nil [Node]. *)
Fixpoint at_loop (st : States) (ns : Nodes) (i j : Z) {struct ns}
  : option Node :=
  match ns with
  | NoNodes => None
  | ConsNode n rest =>
      if isHidden st n then at_loop st rest i j
      else if j =? i then Some n
      else if isExpanded st n then
        match at_loop st (Children n) (GoInt.sub (GoInt.sub i j) 1) 0 with
        | Some nn => Some nn
        | None =>
            at_loop st rest i
              (GoInt.add (GoInt.add j (countNodesBelow n)) 1)
        end
      else at_loop st rest i (GoInt.add j 1)
  end.

(** [func (ns Nodes) at(i int) Node] *)
Definition Nodes_at (st : States) (ns : Nodes) (i : Z) : option Node :=
  at_loop st ns i 0.

(** The loop of [flatten], [res] being the slice built so far. *)
Fixpoint flatten_loop (st : States) (ns res : Nodes) {struct ns} : Nodes :=
  match ns with
  | NoNodes => res
  | ConsNode n rest =>
      if isHidden st n then flatten_loop st rest res
      else
        let res := append res (ConsNode n NoNodes) in
        let res :=
          if isCollapsible st n && isExpanded st n
          then append res (flatten_loop st (Children n) NoNodes)
          else res in
        flatten_loop st rest res
  end.

(** [func (ns Nodes) flatten() Nodes] *)
Definition flatten (st : States) (ns : Nodes) : Nodes :=
  flatten_loop st ns NoNodes.

(** Every node of a forest, parents before children, whatever the flags. *)
Fixpoint allNodes (ns : Nodes) : list Node :=
  match ns with
  | NoNodes => []
  | ConsNode n rest => n :: allNodes (Children n) ++ allNodes rest
  end.

(** The nodes strictly below [n]. *)
Definition descendants (n : Node) : list Node := allNodes (Children n).

(** The identities of the objects of a forest. *)
Definition ids (ns : Nodes) : list nat := map nodeId (allNodes ns).

(** A forest is a tree of distinct objects when no identity occurs twice. *)
Definition distinct (ns : Nodes) : Prop := NoDup (ids ns).

(** The number of objects of a forest. *)
Definition size (ns : Nodes) : Z := Z.of_nat (length (allNodes ns)).

(* ------------------------------------------------------------------ *)
(** *** The orders the spec speaks of *)

(** The visible flat order as a list. *)
Definition visible (st : States) (ns : Nodes) : list Node :=
  elems (flatten st ns).

(** The order in which the spec describes [at]: depth first, children after
    their parent, leaving out hidden nodes and descending into a subtree
    only if its root is not [Collapsed]. *)
Fixpoint atOrder (st : States) (ns : Nodes) : list Node :=
  match ns with
  | NoNodes => []
  | ConsNode n rest =>
      if isHidden st n then atOrder st rest
      else
        n :: (if isExpanded st n then atOrder st (Children n) else [])
          ++ atOrder st rest
  end.

(** The [Collapsible] flags agree with the shape of the forest: a node
    that has children is marked [Collapsible]. *)
Definition collapsibleParents (st : States) (ns : Nodes) : Prop :=
  forall c, In c (allNodes ns) ->
            hasChildren c = true -> isCollapsible st c = true.

(** The store after [n.SetState(n.State() ^ NodeCollapsed)]. *)
Definition flipCollapsed (st : States) (n : Node) : States :=
  SetState n (N.lxor (State st n) NodeCollapsed) st.

(** The number of nodes of the whole forest that hold [Selected]. *)
Definition selectedCount (st : States) (ns : Nodes) : nat :=
  length (filter (isSelected st) (allNodes ns)).

(** The entries of a slice that are not hidden. *)
Definition shown (st : States) (ns : Nodes) : Z :=
  Z.of_nat (length (filter (fun n => negb (isHidden st n)) (elems ns))).

(* ================================================================== *)
(** ** The collaborators of the component *)

(** The methods of the [Node] interface that the component only reads.
    [Parent()] is a non-owning back-reference chosen by the provider; the
    loop of [getDepth] ends only if the chain of parents is finite, which
    [height] expresses. *)
Class Provider := {
  Name : States -> Node -> string;
  Prefix : Node -> string;
  Parent : Node -> option Node;
  height : Node -> nat;
  Parent_height : forall n p, Parent n = Some p -> (height p < height n)%nat
}.

(** [key.Binding] and [key.Matches] of the bubbles library: a binding is
    the list of the keys it answers to. *)
Definition Binding := list string.

Definition key_Matches (msg : string) (b : Binding) : bool :=
  existsb (String.eqb msg) b.

Module KeyMap.

Record t := {
  Expand : Binding;
  LineUp : Binding;
  LineDown : Binding;
  PageUp : Binding;
  PageDown : Binding;
  HalfPageUp : Binding;
  HalfPageDown : Binding;
  GotoTop : Binding;
  GotoBottom : Binding
}.

End KeyMap.

(** The text functions of lipgloss and reflow, and the symbol, style and
    key tables of the package that live outside node.go and tree.go. *)
Class Toolkit := {
  Style : Type;
  Symbols : Type;
  DefaultLine : Style;
  DefaultSelected : Style;
  DefaultSymbol : Style;
  DefaultSymbols : Symbols;
  DefaultKeyMap : KeyMap.t;
  Padding : Style -> Symbols -> Z -> string;
  RenderConnector : Style -> Symbols -> Z -> string;
  RenderTerminator : Style -> Symbols -> Z -> string;
  RenderStarter : Style -> Symbols -> Z -> string;
  (** [lipgloss.Width] *)
  lipgloss_Width : string -> Z;
  (** [style.Width(w).MaxWidth(mw).Render(s)] *)
  lipgloss_Render : Style -> Z -> Z -> string -> string;
  (** [lipgloss.JoinHorizontal(lipgloss.Left, a, b)] *)
  lipgloss_JoinHorizontal : string -> string -> string;
  (** [truncate.StringWithTail(s, w, tail)] *)
  truncate_StringWithTail : string -> Z -> string -> string
}.

(** [constraints.Ordered]: the types with the operators [<] and [>], the
    integers, the floats and the strings.  On each of them [x > y] is
    [y < x] and nothing is below itself; on the floats [<] is not total,
    a NaN being neither below nor above anything. *)
Class Ordered (T : Type) := {
  less : T -> T -> bool;
  less_irrefl : forall x, less x x = false
}.

Definition greater {T} `{Ordered T} (x y : T) : bool := less y x.

#[export] Instance Ordered_int : Ordered Z :=
  {| less := Z.ltb; less_irrefl := Z.ltb_irrefl |}.

(** [func clamp[T constraints.Ordered](value T, min T, max T) T] *)
Definition clamp {T} `{Ordered T} (value min max : T) : T :=
  if less value min then min
  else if greater value max then max
  else value.

(* ------------------------------------------------------------------ *)
(** *** The viewport *)

Module viewport.

(** Modelled from the spec: the scrolling viewport is an external
    collaborator whose fork (with [ReplaceLine], [VisibleLineIndices] and
    [TotalLineCount]) is not part of the sources.  It holds the ordered
    sequence of rendered lines, a size and a vertical offset; it reports
    the total line count and the visible line-index range, shifts the
    window by a delta and replaces one line by index. *)
Record Model := {
  Width : Z;
  Height : Z;
  YOffset : Z;
  lines : list string
}.

Definition New (width height : Z) : Model :=
  {| Width := width; Height := height; YOffset := 0; lines := [] |}.

Definition TotalLineCount (v : Model) : Z := Z.of_nat (length (lines v)).

Definition maxYOffset (v : Model) : Z :=
  Z.max 0 (TotalLineCount v - Height v).

Definition SetYOffset (n : Z) (v : Model) : Model :=
  {| Width := Width v; Height := Height v;
     YOffset := clamp n 0 (maxYOffset v); lines := lines v |}.

(** [SetContent(lipgloss.JoinVertical(lipgloss.Left, rows...))]: one line
    per rendered row. *)
Definition SetContent (rows : list string) (v : Model) : Model :=
  {| Width := Width v; Height := Height v;
     YOffset := clamp (YOffset v) 0
                  (Z.max 0 (Z.of_nat (length rows) - Height v));
     lines := rows |}.

Definition VisibleLineIndices (v : Model) : Z * Z :=
  (YOffset v, Z.min (YOffset v + Height v) (TotalLineCount v) - 1).

Definition LineUp (n : Z) (v : Model) : Model :=
  SetYOffset (YOffset v - n) v.

Definition LineDown (n : Z) (v : Model) : Model :=
  SetYOffset (YOffset v + n) v.

Fixpoint replace (l : list string) (i : nat) (s : string) : list string :=
  match l, i with
  | [], _ => []
  | _ :: rest, O => s :: rest
  | x :: rest, S k => x :: replace rest k s
  end.

Definition ReplaceLine (i : Z) (s : string) (v : Model) : Model :=
  if (0 <=? i) && (i <? TotalLineCount v)
  then {| Width := Width v; Height := Height v; YOffset := YOffset v;
          lines := replace (lines v) (Z.to_nat i) s |}
  else v.

(** The lines inside the window. *)
Definition View (v : Model) : list string :=
  firstn (Z.to_nat (Height v)) (skipn (Z.to_nat (YOffset v)) (lines v)).

Definition SetWidth (w : Z) (v : Model) : Model :=
  {| Width := w; Height := Height v; YOffset := YOffset v;
     lines := lines v |}.

Definition SetHeight (h : Z) (v : Model) : Model :=
  {| Width := Width v; Height := h; YOffset := YOffset v;
     lines := lines v |}.

End viewport.

(* ------------------------------------------------------------------ *)
(** *** Mutation and panics *)

(** A computation reads and writes the store of node states and may panic
    ([None]), as a method call on a nil [Node] does. *)
Definition M (A : Type) : Type := States -> option (A * States).

Definition ret {A} (a : A) : M A := fun st => Some (a, st).

Definition bind {A B} (c : M A) (k : A -> M B) : M B :=
  fun st => match c st with
            | Some (a, st') => k a st'
            | None => None
            end.

Definition panic {A} : M A := fun _ => None.

Definition get : M States := fun st => Some (st, st).

Definition modify (f : States -> States) : M unit :=
  fun st => Some (tt, f st).

(** Running a method after a computation that succeeded. *)
Definition andThen {A B} (r : option (A * States)) (f : A -> M B)
  : option (B * States) :=
  match r with
  | Some (a, st) => f a st
  | None => None
  end.

Declare Scope go_scope.
Delimit Scope go_scope with go.
Notation "x <- c ;; k" := (bind c (fun x => k))
  (at level 61, c at next level, right associativity) : go_scope.
Notation "c ;;; k" := (bind c (fun _ => k))
  (at level 61, right associativity) : go_scope.

(** [n.SetState(n.State() | flags)] *)
Definition orState (n : Node) (flags : NodeState) : M unit :=
  modify (fun st => SetState n (N.lor (State st n) flags) st).

(** [n.SetState(n.State() ^ flags)] *)
Definition xorState (n : Node) (flags : NodeState) : M unit :=
  modify (fun st => SetState n (N.lxor (State st n) flags) st).

(** [tea.Cmd]: the component only ever returns the nil command. *)
Inductive Cmd : Type := noop.

(** [tea.Msg], as far as [Update] tells messages apart. *)
Inductive Msg : Type :=
| WindowSizeMsg (Width Height : Z)
| KeyMsg (key : string)
| OtherMsg.

(* ================================================================== *)
(** ** node.go and tree.go: depth and branch glyphs *)

Section Tree.

Context {provider : Provider} {toolkit : Toolkit}.

Local Open Scope go_scope.

(** The loop of [getDepth]; [fuel] bounds the iterations, and a chain of
    parents of [n] is shorter than [height n]. *)
Fixpoint getDepth_loop (fuel : nat) (n : option Node) (d : Z) : Z :=
  match fuel with
  | O => d
  | S fuel' =>
      match n with
      | None => d
      | Some x =>
          match Parent x with
          | None => d
          | Some p => getDepth_loop fuel' (Some p) (GoInt.add d 1)
          end
      end
  end.

(** [func getDepth(n Node) int] *)
Definition getDepth (n : option Node) : Z :=
  match n with
  | None => 0
  | Some x => getDepth_loop (S (height x)) n 0
  end.

(** The [for] loop of [hasPaddingAtPos]: [iters] hops to the parent, with
    the early [return true] when the chain ends. *)
Fixpoint hasPaddingAtPos_loop (st : States) (iters : nat) (n : Node) : bool :=
  match iters with
  | O => isLastNode st n
  | S k =>
      match Parent n with
      | None => true
      | Some p => hasPaddingAtPos_loop st k p
      end
  end.

(** [func hasPaddingAtPos(n Node, depth int, maxDepth int) bool] *)
Definition hasPaddingAtPos (st : States) (n : option Node)
  (depth maxDepth : Z) : bool :=
  match n with
  | None => true
  | Some x =>
      if depth >? maxDepth then true
      else if depth =? maxDepth then false
      else
        let parentInPos := GoInt.sub maxDepth depth in
        hasPaddingAtPos_loop st (Z.to_nat parentInPos) x
  end.

(** [type Styles struct] *)
Record Styles := {
  Line : Style;
  Selected : Style;
  Symbol : Style
}.

Definition DefaultStyles : Styles :=
  {| Line := DefaultLine; Selected := DefaultSelected;
     Symbol := DefaultSymbol |}.

(** [type Model struct]; the exported fields [KeyMap], [Styles] and
    [Symbols] start with a small letter here, their types having the
    names. *)
Record Model := {
  root : Node;
  nodes : Nodes;
  view : viewport.Model;
  focus : bool;
  cursor : Z;
  keyMap : KeyMap.t;
  styles : Styles;
  symbols : Symbols
}.

Definition withView (v : viewport.Model) (m : Model) : Model :=
  {| root := root m; nodes := nodes m; view := v; focus := focus m;
     cursor := cursor m; keyMap := keyMap m; styles := styles m;
     symbols := symbols m |}.

Definition withCursor (c : Z) (m : Model) : Model :=
  {| root := root m; nodes := nodes m; view := view m; focus := focus m;
     cursor := c; keyMap := keyMap m; styles := styles m;
     symbols := symbols m |}.

Definition withFocus (f : bool) (m : Model) : Model :=
  {| root := root m; nodes := nodes m; view := view m; focus := f;
     cursor := cursor m; keyMap := keyMap m; styles := styles m;
     symbols := symbols m |}.

(** [func (m Model) getTreeSymbolForPos(n Node, pos int, maxDepth int)];
    [None] is the panic on a nil node. *)
Definition getTreeSymbolForPos (m : Model) (st : States) (n : option Node)
  (pos maxDepth : Z) : option string :=
  match n with
  | None => None
  | Some x =>
      let s := Symbol (styles m) in
      if hasPaddingAtPos st n pos maxDepth
      then Some (Padding s (symbols m) pos)
      else if pos <? maxDepth
      then Some (RenderConnector s (symbols m) pos)
      else if isLastNode st x
      then Some (RenderTerminator s (symbols m) pos)
      else Some (RenderStarter s (symbols m) pos)
  end.

(** The loop of [renderSymbolsForSingleLineNode]: [count] columns are left,
    starting at [pos]. *)
Fixpoint renderSymbols_loop (m : Model) (st : States) (n : Node)
  (nodeDepth : Z) (count : nat) (pos : Z) (prefix : string) : option string :=
  match count with
  | O => Some prefix
  | S k =>
      match getTreeSymbolForPos m st (Some n) pos nodeDepth with
      | None => None
      | Some g =>
          renderSymbols_loop m st n nodeDepth k (GoInt.add pos 1)
            (prefix ++ g)%string
      end
  end.

(** [func (m Model) renderSymbolsForSingleLineNode(n Node) string]: the
    columns [0 .. nodeDepth]. *)
Definition renderSymbolsForSingleLineNode (m : Model) (st : States)
  (n : Node) : option string :=
  let nodeDepth := getDepth (Some n) in
  renderSymbols_loop m st n nodeDepth (Z.to_nat (nodeDepth + 1)) 0 EmptyString.

(** [const Ellipsis], the seven bytes between the quotes of tree.go. *)
Definition Ellipsis : string := "â€¦".

(** [func (m Model) Width() int] *)
Definition Width (m : Model) : Z := viewport.Width (view m).

(** [func (m *Model) renderNode(n Node) string]; a nil node panics. *)
Definition renderNode (m : Model) (n : option Node) : M string :=
  fun st =>
    match n with
    | None => None
    | Some x =>
        match renderSymbolsForSingleLineNode m st x with
        | None => None
        | Some glyphs =>
            let prefix := (Prefix x ++ glyphs)%string in
            let prefixWidth := lipgloss_Width prefix in
            let nameWidth := GoInt.sub (Width m) prefixWidth in
            let style :=
              if isSelected st x then Selected (styles m)
              else Line (styles m) in
            let render :=
              lipgloss_Render style nameWidth (GoInt.sub nameWidth 1) in
            let name := Name st x in
            let name :=
              if lipgloss_Width name >? nameWidth
              then truncate_StringWithTail name
                     ((GoInt.sub nameWidth 1) mod 2 ^ 64) Ellipsis
              else name in
            Some (lipgloss_JoinHorizontal prefix (render name), st)
        end
    end.

(** The [hints] that [renderNodes] computes for the entry at index [i] of a
    slice of length [total]. *)
Definition hintsFor (n : Node) (i total : Z) : NodeState :=
  let hints := NodeNone in
  let hints := if i >? 0 then N.lor hints NodeHasPreviousSibling else hints in
  let hints := if hasChildren n then N.lor hints NodeCollapsible else hints in
  let hints :=
    if i =? GoInt.sub total 1 then N.lor hints NodeLastChild else hints in
  hints.

(** The loop of [renderNodes] over what is left of the slice, [i] being the
    index of its first entry and [total] the length of the whole slice. *)
Fixpoint renderNodes_loop (m : Model) (total : Z) (ns : Nodes) (i : Z)
  (rendered : list string) {struct ns} : M (list string) :=
  match ns with
  | NoNodes => ret rendered
  | ConsNode n rest =>
      st <- get ;;
      if isHidden st n
      then renderNodes_loop m total rest (GoInt.add i 1) rendered
      else
        orState n (hintsFor n i total) ;;;
        out <- renderNode m (Some n) ;;
        let rendered :=
          if (0 <? Z.of_nat (String.length out))
          then rendered ++ [out] else rendered in
        renderNodes_loop m total rest (GoInt.add i 1) rendered
  end.

(** [func (m Model) renderNodes(ns Nodes) []string] *)
Definition renderNodes (m : Model) (ns : Nodes) : M (list string) :=
  renderNodes_loop m (len ns) ns 0 [].

(** [func (m Model) AllNodes() Nodes] *)
Definition AllNodes (m : Model) : Nodes := nodes m.

(** [func (m Model) renderAllNodes() []string] *)
Definition renderAllNodes (m : Model) : M (list string) :=
  renderNodes m (AllNodes m).

(* ================================================================== *)
(** ** tree.go: cursor, selection and messages *)

(** [func (m Model) currentNode() Node] *)
Definition currentNode (m : Model) (st : States) : option Node :=
  Nodes_at st (nodes m) (cursor m).

(** [func (m *Model) setCursor(newCursorPos int) tea.Cmd]; the calls of
    [State] and [SetState] on a nil node panic. *)
Definition setCursor (newCursorPos : Z) (m : Model) : M (Model * Cmd) :=
  if newCursorPos =? cursor m then ret (m, noop)
  else
    st <- get ;;
    match currentNode m st with
    | None => panic
    | Some previous =>
        xorState previous NodeSelected ;;;
        let m := withCursor newCursorPos m in
        st <- get ;;
        match currentNode m st with
        | None => panic
        | Some current =>
            orState current NodeSelected ;;;
            ret (m, noop)
        end
    end.

(** [func (m *Model) MoveUp(n int) tea.Cmd] *)
Definition MoveUp (n : Z) (m : Model) : M (Model * Cmd) :=
  if cursor m =? 0 then ret (m, noop)
  else
    let minCursorPos := 0 in
    let newCursorPos := Z.max (GoInt.sub (cursor m) n) minCursorPos in
    let '(viewTop, _) := viewport.VisibleLineIndices (view m) in
    let m :=
      if newCursorPos <? viewTop
      then withView
             (viewport.LineUp (GoInt.sub newCursorPos (cursor m)) (view m)) m
      else m in
    setCursor newCursorPos m.

(** [func (m *Model) MoveDown(n int) tea.Cmd] *)
Definition MoveDown (n : Z) (m : Model) : M (Model * Cmd) :=
  let maxCursorPos := GoInt.sub (viewport.TotalLineCount (view m)) 1 in
  if cursor m =? maxCursorPos then ret (m, noop)
  else
    let newCursorPos := Z.min (GoInt.add (cursor m) n) maxCursorPos in
    let '(_, viewBottom) := viewport.VisibleLineIndices (view m) in
    let m :=
      if viewBottom <? newCursorPos
      then withView
             (viewport.LineDown (GoInt.sub newCursorPos (cursor m)) (view m))
             m
      else m in
    setCursor newCursorPos m.

(** [func (m *Model) GotoTop() tea.Cmd] *)
Definition GotoTop (m : Model) : M (Model * Cmd) :=
  MoveUp (viewport.TotalLineCount (view m)) m.

(** [func (m *Model) GotoBottom() tea.Cmd] *)
Definition GotoBottom (m : Model) : M (Model * Cmd) :=
  MoveDown (viewport.TotalLineCount (view m)) m.

(** [func (m *Model) ToggleExpand()] *)
Definition ToggleExpand (m : Model) : M Model :=
  st <- get ;;
  match currentNode m st with
  | None => panic
  | Some n =>
      if negb (isCollapsible st n) then ret m
      else xorState n NodeCollapsed ;;; ret m
  end.

(** [func (m *Model) SetWidth(w int)] *)
Definition SetWidth (w : Z) (m : Model) : Model :=
  withView (viewport.SetWidth w (view m)) m.

(** [func (m *Model) SetHeight(h int)] *)
Definition SetHeight (h : Z) (m : Model) : Model :=
  withView (viewport.SetHeight h (view m)) m.

(** [func (m Model) Height() int] *)
Definition Height (m : Model) : Z := viewport.Height (view m).

(** [func (m Model) Cursor() int] *)
Definition Cursor (m : Model) : Z := cursor m.

(** [func (m Model) Focused() bool] *)
Definition Focused (m : Model) : bool := focus m.

(** [func (m *Model) Focus()] *)
Definition Focus (m : Model) : M Model := ret (withFocus true m).

(** [func (m *Model) Blur()] *)
Definition Blur (m : Model) : M Model :=
  st <- get ;;
  match currentNode m st with
  | None => panic
  | Some current =>
      xorState current NodeSelected ;;;
      ret (withFocus false m)
  end.

(** [func New(ns Nodes) Model]; indexing an empty slice panics. *)
Definition New (ns : Nodes) : M Model :=
  match ns with
  | NoNodes => panic
  | ConsNode root _ =>
      orState root NodeSelected ;;;
      st <- get ;;
      let m :=
        {| root := root; nodes := flatten st ns;
           view := viewport.New 0 0; focus := false; cursor := 0;
           keyMap := DefaultKeyMap; styles := DefaultStyles;
           symbols := DefaultSymbols |} in
      initialContent <- renderAllNodes m ;;
      ret (withView (viewport.SetContent initialContent (view m)) m)
  end.

(** [func (m Model) Init() tea.Cmd] *)
Definition Init (m : Model) : Cmd := noop.

(** The [switch] of [Update] over the navigation keys. *)
Definition navigate (key : string) (m : Model) : M (Model * Cmd) :=
  if key_Matches key (KeyMap.LineUp (keyMap m)) then MoveUp 1 m
  else if key_Matches key (KeyMap.LineDown (keyMap m)) then MoveDown 1 m
  else if key_Matches key (KeyMap.PageUp (keyMap m))
  then MoveUp (viewport.Height (view m)) m
  else if key_Matches key (KeyMap.PageDown (keyMap m))
  then MoveDown (viewport.Height (view m)) m
  else if key_Matches key (KeyMap.HalfPageUp (keyMap m))
  then MoveUp (GoInt.div (viewport.Height (view m)) 2) m
  else if key_Matches key (KeyMap.HalfPageDown (keyMap m))
  then MoveDown (GoInt.div (viewport.Height (view m)) 2) m
  else if key_Matches key (KeyMap.GotoTop (keyMap m)) then GotoTop m
  else if key_Matches key (KeyMap.GotoBottom (keyMap m)) then GotoBottom m
  else ret (m, noop).

(** [func (m Model) Update(msg tea.Msg) (Model, tea.Cmd)] *)
Definition Update (msg : Msg) (m : Model) : M (Model * Cmd) :=
  if negb (focus m) then ret (m, noop)
  else
    match msg with
    | WindowSizeMsg w h => ret (SetHeight h (SetWidth w m), noop)
    | KeyMsg key =>
        let previouslySelectedNode := cursor m in
        if key_Matches key (KeyMap.Expand (keyMap m)) then
          m <- ToggleExpand m ;;
          renderedRows <- renderAllNodes m ;;
          ret (withView (viewport.SetContent renderedRows (view m)) m, noop)
        else
          moved <- navigate key m ;;
          let '(m, cmd) := moved in
          let newlySelectedNode := cursor m in
          st <- get ;;
          old <- renderNode m (Nodes_at st (nodes m) previouslySelectedNode) ;;
          let m :=
            withView
              (viewport.ReplaceLine previouslySelectedNode old (view m)) m in
          st <- get ;;
          new <- renderNode m (Nodes_at st (nodes m) newlySelectedNode) ;;
          let m :=
            withView
              (viewport.ReplaceLine newlySelectedNode new (view m)) m in
          ret (m, cmd)
    | OtherMsg => ret (m, noop)
    end.

(** [func (m Model) View() string] *)
Definition View (m : Model) : list string := viewport.View (view m).

(** [k] hops along [Parent()]; [None] when the walk runs off the root. *)
Fixpoint ancestor (k : nat) (n : Node) : option Node :=
  match k with
  | O => Some n
  | S k' =>
      match Parent n with
      | None => None
      | Some p => ancestor k' p
      end
  end.

(** A spare model over the sample of styles and keys, for statements that
    only read the configuration. *)
Definition emptyModel (r : Node) (ns : Nodes) : Model :=
  {| root := r; nodes := ns; view := viewport.New 0 0; focus := false;
     cursor := 0; keyMap := DefaultKeyMap; styles := DefaultStyles;
     symbols := DefaultSymbols |}.

(* ------------------------------------------------------------------ *)
(** *** Cursor moves *)

(** The visible count the controller clamps against: the number of lines
    the viewport holds. *)
Definition visibleCount (m : Model) : Z := viewport.TotalLineCount (view m).

Definition cursorInRange (m : Model) : Prop :=
  0 <= cursor m <= visibleCount m - 1.

(** Every line of the viewport was rendered from an entry of the flat
    index that is not hidden, and the index is a Go slice. *)
Definition linesIndexed (m : Model) (st : States) : Prop :=
  visibleCount m <= shown st (nodes m) /\ len (nodes m) <= GoInt.int_max.

Inductive Move : Type :=
| Up (n : Z)
| Down (n : Z).

Definition move (mv : Move) (m : Model) : M (Model * Cmd) :=
  match mv with
  | Up n => MoveUp n m
  | Down n => MoveDown n m
  end.

Fixpoint moves (l : list Move) (m : Model) : M Model :=
  match l with
  | [] => ret m
  | mv :: l' => r <- move mv m ;; moves l' (fst r)
  end.

(** The amount is an [int] that is not negative, and [cursor + n] does not
    exceed the largest [int]. *)
Definition fits (mv : Move) (m : Model) : Prop :=
  match mv with
  | Up n => 0 <= n <= GoInt.int_max
  | Down n => 0 <= n /\ cursor m + n <= GoInt.int_max
  end.

(** Every move of the sequence fits the model it is applied to. *)
Fixpoint admissible (l : list Move) (m : Model) (st : States) : Prop :=
  match l with
  | [] => True
  | mv :: l' =>
      fits mv m /\
      match move mv m st with
      | Some (r, st') => admissible l' (fst r) st'
      | None => True
      end
  end.

End Tree.

(* ================================================================== *)
(** ** A sample tree and a plain-text toolkit *)

Module Sample.

(** The three-level tree [root -> [a, b]], [a -> [a1, a2]]. *)
Definition a1 : Node := MkNode 2 NoNodes.
Definition a2 : Node := MkNode 3 NoNodes.
Definition a : Node := MkNode 1 (ConsNode a1 (ConsNode a2 NoNodes)).
Definition b : Node := MkNode 4 NoNodes.
Definition root : Node := MkNode 0 (ConsNode a (ConsNode b NoNodes)).
Definition forest : Nodes := ConsNode root NoNodes.

Definition parentOf (n : Node) : option Node :=
  match nodeId n with
  | 1%nat | 4%nat => Some root
  | 2%nat | 3%nat => Some a
  | _ => None
  end.

Definition heightOf (n : Node) : nat :=
  match nodeId n with
  | 1%nat | 4%nat => 1
  | 2%nat | 3%nat => 2
  | _ => 0
  end.

(** The name of the example program: an expansion marker before the label
    of a collapsible node. *)
Definition nameOf (st : States) (n : Node) : string :=
  let label :=
    match nodeId n with
    | 0%nat => "root"
    | 1%nat => "a"
    | 2%nat => "a1"
    | 3%nat => "a2"
    | 4%nat => "b"
    | _ => "?"
    end%string in
  if Is (State st n) NodeCollapsible
  then ((if Is (State st n) NodeCollapsed then "> " else "v ") ++ label)%string
  else label.

Lemma parentOf_height :
  forall n p, parentOf n = Some p -> (heightOf p < heightOf n)%nat.
Proof.
  intros [[|[|[|[|[|k]]]]] c] p; unfold parentOf, heightOf; simpl;
    intros H; inversion H; subst; simpl; lia.
Qed.

#[export] Instance provider : Provider := {|
  Name := nameOf;
  Prefix := fun _ => "-rwxrwxrwx "%string;
  Parent := parentOf;
  height := heightOf;
  Parent_height := parentOf_height
|}.

Definition keys : KeyMap.t := {|
  KeyMap.Expand := ["enter"%string];
  KeyMap.LineUp := ["up"; "k"]%string;
  KeyMap.LineDown := ["down"; "j"]%string;
  KeyMap.PageUp := ["pgup"%string];
  KeyMap.PageDown := ["pgdown"%string];
  KeyMap.HalfPageUp := ["u"%string];
  KeyMap.HalfPageDown := ["d"%string];
  KeyMap.GotoTop := ["home"; "g"]%string;
  KeyMap.GotoBottom := ["end"; "G"]%string
|}.

(** Text without styling: widths are lengths, rendering leaves the text
    as it is. *)
#[export] Instance toolkit : Toolkit := {|
  Style := unit;
  Symbols := unit;
  DefaultLine := tt;
  DefaultSelected := tt;
  DefaultSymbol := tt;
  DefaultSymbols := tt;
  DefaultKeyMap := keys;
  Padding := fun _ _ _ => "   "%string;
  RenderConnector := fun _ _ _ => "|  "%string;
  RenderTerminator := fun _ _ _ => "`- "%string;
  RenderStarter := fun _ _ _ => "+- "%string;
  lipgloss_Width := fun s => Z.of_nat (String.length s);
  lipgloss_Render := fun _ _ _ s => s;
  lipgloss_JoinHorizontal := String.append;
  truncate_StringWithTail := fun s _ _ => s
|}.

(** Every directory collapsible and expanded: the state in which the
    visible order is [root, a, a1, a2, b]. *)
Definition expanded : States :=
  fun k => match k with
           | 0%nat | 1%nat => NodeCollapsible
           | _ => NodeNone
           end.

(** The directory [a] collapsed: the visible order is [root, a, b]. *)
Definition collapsedA : States :=
  fun k => match k with
           | 0%nat => NodeCollapsible
           | 1%nat => N.lor NodeCollapsible NodeCollapsed
           | _ => NodeNone
           end.

(** The component as [New] builds it over the expanded tree. *)
Definition started : Model * States :=
  match New forest expanded with
  | Some r => r
  | None => (emptyModel root forest, expanded)
  end.

(** The same over the tree with [a] collapsed. *)
Definition startedCollapsedA : Model * States :=
  match New forest collapsedA with
  | Some r => r
  | None => (emptyModel root forest, collapsedA)
  end.

End Sample.

(** The examples below run over the sample provider and toolkit. *)
#[local] Existing Instance Sample.provider.
#[local] Existing Instance Sample.toolkit.

(* ================================================================== *)
(** ** Further notions for the statements *)

(** Exactly the object [p] holds [Selected]. *)
Definition selectedOnly (st : States) (p : Node) : Prop :=
  forall c, isSelected st c = true <-> nodeId c = nodeId p.

(** The store after one pass of [renderNodes] over what is left of a slice:
    every entry that is not hidden receives its hints. *)
Fixpoint applyHints (total : Z) (ns : Nodes) (i : Z) (st : States) : States :=
  match ns with
  | NoNodes => st
  | ConsNode n rest =>
      if isHidden st n then applyHints total rest (GoInt.add i 1) st
      else
        applyHints total rest (GoInt.add i 1)
          (SetState n (N.lor (State st n) (hintsFor n i total)) st)
  end.

(** The last entry of a slice. *)
Fixpoint lastEntry (ns : Nodes) : option Node :=
  match ns with
  | NoNodes => None
  | ConsNode n NoNodes => Some n
  | ConsNode _ rest => lastEntry rest
  end.

(** The model shows the visible flat order of [roots]: its flat index is
    that order, flattened afresh from the current flags, and the viewport
    holds one line for each of its nodes. *)
Definition showsVisibleOrder {toolkit : Toolkit}
  (roots : Nodes) (m : Model) (st : States) : Prop :=
  nodes m = flatten st roots /\
  viewport.TotalLineCount (view m) = len (nodes m) /\
  len (nodes m) <= GoInt.int_max.

(** Where a sequence of moves that stop at line 0 and at line [last] takes
    a cursor that starts on line [c]. *)
Fixpoint landing (l : list Move) (c last : Z) : Z :=
  match l with
  | [] => c
  | Up n :: l' => landing l' (Z.max (c - n) 0) last
  | Down n :: l' => landing l' (Z.min (c + n) last) last
  end.

(** No amount of the sequence is negative or beyond the largest [int], and
    no move down takes [cursor + n] beyond the largest [int], the cursor
    starting on line [c] and stopping at line 0 and at line [last]. *)
Fixpoint withinInt (l : list Move) (c last : Z) : Prop :=
  match l with
  | [] => True
  | Up n :: l' =>
      0 <= n <= GoInt.int_max /\ withinInt l' (Z.max (c - n) 0) last
  | Down n :: l' =>
      0 <= n /\ c + n <= GoInt.int_max /\
      withinInt l' (Z.min (c + n) last) last
  end.

(* ================================================================== *)
(** ** examples/tree/main.go: the file system example *)

Module Example.

Import Stdlib.Strings.Ascii.

(** [func isUnixHiddenFile(name string) bool]; a Go string is its bytes,
    [name[0]] the first of them and [name[:2]] the first two. *)
Definition isUnixHiddenFile (name : string) : bool :=
  (2 <? Z.of_nat (String.length name))
  && (match String.get 0 name with
      | Some c => Ascii.eqb c "."%char
      | None => false
      end
      || String.eqb (String.substring 0 2 name) "..").

Section Paths.

(** [filepath.Clean] of the standard library, and the [path] field of the
    example's [node] struct. *)
Variable Clean : string -> string.
Variable path : Node -> string.

(** [func findNodeByPath(nodes []*node, path string) *node] *)
Fixpoint findNodeByPath (nodes : Nodes) (p : string) {struct nodes}
  : option Node :=
  match nodes with
  | NoNodes => None
  | ConsNode node rest =>
      if String.eqb (Clean (path node)) (Clean p) then Some node
      else
        match findNodeByPath (Children node) p with
        | Some child => Some child
        | None => findNodeByPath rest p
        end
  end.

End Paths.

End Example.

(* ================================================================== *)
(** * Facts *)

(** ** Go integers *)

Lemma wrap_id (z : Z) : GoInt.in_range z -> GoInt.wrap z = z.
Proof.
  unfold GoInt.in_range, GoInt.wrap, GoInt.int_min, GoInt.int_max; intros H.
  rewrite Z.mod_small; lia.
Qed.

Lemma wrap_range (z : Z) : GoInt.in_range (GoInt.wrap z).
Proof.
  unfold GoInt.in_range, GoInt.wrap, GoInt.int_min, GoInt.int_max.
  pose proof (Z.mod_pos_bound (z - - 2 ^ 63) (2 ^ 64)); lia.
Qed.

(** A wrapped value differs from the exact one by a multiple of 2^64. *)
Lemma wrap_cases (z : Z) : exists k, GoInt.wrap z = z + k * 2 ^ 64.
Proof.
  unfold GoInt.wrap, GoInt.int_min.
  exists (- ((z - - 2 ^ 63) / 2 ^ 64)).
  pose proof (Z.div_mod (z - - 2 ^ 63) (2 ^ 64)); lia.
Qed.

(** Arithmetic within the bounds of [int]. *)
Ltac int_lia :=
  unfold GoInt.in_range, GoInt.int_min, GoInt.int_max in *; lia.

Lemma add_exact (a b : Z) :
  GoInt.in_range (a + b) -> GoInt.add a b = a + b.
Proof. apply wrap_id. Qed.

Lemma sub_exact (a b : Z) :
  GoInt.in_range (a - b) -> GoInt.sub a b = a - b.
Proof. apply wrap_id. Qed.

(** ** Flags *)

(** A flag is one bit of the mask. *)
Lemma Is_bit (s : NodeState) (k : N) : Is s (2 ^ k)%N = N.testbit s k.
Proof.
  unfold Is.
  assert (E : N.land s (2 ^ k)%N = if N.testbit s k then (2 ^ k)%N else 0%N).
  { apply N.bits_inj; intro i.
    rewrite N.land_spec, N.pow2_bits_eqb.
    destruct (N.eqb_spec k i) as [->|Hki].
    - destruct (N.testbit s i) eqn:Hs;
        [ rewrite N.pow2_bits_true | rewrite N.bits_0 ]; reflexivity.
    - rewrite andb_false_r.
      destruct (N.testbit s k);
        [ rewrite N.pow2_bits_false by congruence | rewrite N.bits_0 ];
        reflexivity. }
  rewrite E.
  destruct (N.testbit s k).
  - apply N.eqb_refl.
  - apply N.eqb_neq. pose proof (N.pow_nonzero 2 k); lia.
Qed.

Lemma isHidden_bit st n : isHidden st n = N.testbit (State st n) 4.
Proof. exact (Is_bit (State st n) 4). Qed.

Lemma isCollapsible_bit st n : isCollapsible st n = N.testbit (State st n) 2.
Proof. exact (Is_bit (State st n) 2). Qed.

Lemma isExpanded_bit st n :
  isExpanded st n = negb (N.testbit (State st n) 3).
Proof. unfold isExpanded. f_equal. exact (Is_bit (State st n) 3). Qed.

Lemma isSelected_bit st n : isSelected st n = N.testbit (State st n) 1.
Proof. exact (Is_bit (State st n) 1). Qed.

Lemma State_SetState_same n s st : State (SetState n s st) n = s.
Proof. unfold State, SetState. now rewrite Nat.eqb_refl. Qed.

Lemma State_SetState_other n s st c :
  nodeId c <> nodeId n -> State (SetState n s st) c = State st c.
Proof.
  unfold State, SetState; intros H.
  destruct (Nat.eqb_spec (nodeId c) (nodeId n)); congruence.
Qed.

(** ** Forests *)

(** Induction on a forest: the children of the first node, then the rest
    of the slice. *)
Lemma forest_ind (Q : Nodes -> Prop) :
  Q NoNodes ->
  (forall n rest, Q (Children n) -> Q rest -> Q (ConsNode n rest)) ->
  forall ns, Q ns.
Proof.
  intros H0 H1.
  fix IH 1.
  intros [|[i c] rest].
  - exact H0.
  - apply H1; [exact (IH c) | exact (IH rest)].
Qed.

Lemma elems_append a b : elems (append a b) = elems a ++ elems b.
Proof. induction a as [|n a IH]; simpl; [reflexivity | now rewrite IH]. Qed.

Lemma flatten_loop_acc st ns :
  forall res,
    elems (flatten_loop st ns res) = elems res ++ visible st ns.
Proof.
  unfold visible, flatten.
  induction ns as [|n rest IH]; intros res; simpl.
  - now rewrite app_nil_r.
  - destruct (isHidden st n); [apply IH|].
    match goal with
    | |- elems (flatten_loop _ _ ?R1) = _ ++ elems (flatten_loop _ _ ?R2) =>
        rewrite (IH R1), (IH R2)
    end.
    destruct (isCollapsible st n && isExpanded st n);
      rewrite ?elems_append; simpl; rewrite <- ?app_assoc; reflexivity.
Qed.

(** [flatten] unfolded once. *)
Lemma visible_cons st n rest :
  visible st (ConsNode n rest) =
  if isHidden st n then visible st rest
  else n :: (if isCollapsible st n && isExpanded st n
             then visible st (Children n) else [])
         ++ visible st rest.
Proof.
  unfold visible at 1, flatten; simpl.
  destruct (isHidden st n); [reflexivity|].
  rewrite flatten_loop_acc.
  destruct (isCollapsible st n && isExpanded st n);
    rewrite ?elems_append; simpl; reflexivity.
Qed.

(** [countNodesBelow] adds up zeros. *)
Lemma countNodesBelow_zero : forall n, countNodesBelow n = 0.
Proof.
  assert (H : forall ns, countNodesBelow_loop ns 0 = 0).
  { apply forest_ind; [reflexivity|].
    intros [i c] rest Hc Hr; simpl in *.
    rewrite Hc. exact Hr. }
  intros [i c]; simpl. apply H.
Qed.

Lemma NoDup_app_disjoint {A} (l1 l2 : list A) :
  NoDup (l1 ++ l2) -> forall x, In x l1 -> ~ In x l2.
Proof.
  induction l1 as [|y l1 IH]; simpl; intros H x Hx; [contradiction|].
  inversion H as [|? ? Hy Hrest]; subst.
  destruct Hx as [->|Hx].
  - intro Hin. apply Hy, in_or_app; now right.
  - now apply IH.
Qed.

Lemma ids_cons n rest :
  ids (ConsNode n rest) = nodeId n :: ids (Children n) ++ ids rest.
Proof. unfold ids; simpl. now rewrite map_app. Qed.

Lemma in_ids n ns : In n (allNodes ns) -> In (nodeId n) (ids ns).
Proof. apply in_map. Qed.

(** What distinctness says about the first node of a forest. *)
Lemma distinct_cons n rest :
  distinct (ConsNode n rest) ->
  ~ In (nodeId n) (ids (Children n)) /\
  ~ In (nodeId n) (ids rest) /\
  distinct (Children n) /\
  distinct rest /\
  (forall k, In k (ids (Children n)) -> ~ In k (ids rest)).
Proof.
  unfold distinct; rewrite ids_cons; intros H.
  inversion H as [|? ? Hn Hd]; subst.
  repeat split.
  - intro Hin; apply Hn, in_or_app; now left.
  - intro Hin; apply Hn, in_or_app; now right.
  - exact (NoDup_app_remove_r _ _ Hd).
  - exact (NoDup_app_remove_l _ _ Hd).
  - exact (NoDup_app_disjoint _ _ Hd).
Qed.

Lemma visible_in_allNodes st :
  forall ns n, In n (visible st ns) -> In n (allNodes ns).
Proof.
  apply (forest_ind (fun ns => forall n,
           In n (visible st ns) -> In n (allNodes ns))).
  - intros n [].
  - intros t rest IHc IHr n; rewrite visible_cons; simpl.
    destruct (isHidden st t).
    + intros H. right. apply in_or_app. right. now apply IHr.
    + intros [->|H]; [now left|]. right.
      apply in_app_or in H. apply in_or_app.
      destruct H as [H|H]; [left | right; now apply IHr].
      destruct (isCollapsible st t && isExpanded st t);
        [now apply IHc | contradiction].
Qed.

Lemma visible_not_hidden st :
  forall ns n, In n (visible st ns) -> isHidden st n = false.
Proof.
  apply (forest_ind (fun ns => forall n,
           In n (visible st ns) -> isHidden st n = false)).
  - intros n [].
  - intros t rest IHc IHr n; rewrite visible_cons.
    destruct (isHidden st t) eqn:Ht; [apply IHr|].
    intros [<-|H]; [exact Ht|].
    apply in_app_or in H. destruct H as [H|H]; [|now apply IHr].
    destruct (isCollapsible st t && isExpanded st t);
      [now apply IHc | contradiction].
Qed.

(** The nodes below a node of a forest are nodes of the forest. *)
Lemma descendants_in_allNodes :
  forall ns c n,
    In c (allNodes ns) -> In n (descendants c) -> In n (allNodes ns).
Proof.
  apply (forest_ind (fun ns => forall c n,
           In c (allNodes ns) -> In n (descendants c) ->
           In n (allNodes ns))).
  - intros c n [].
  - intros t rest IHc IHr c n; simpl.
    intros [<-|Hc] Hn.
    + right. apply in_or_app. now left.
    + right. apply in_app_or in Hc. apply in_or_app.
      destruct Hc as [Hc|Hc]; [left; eapply IHc | right; eapply IHr];
        eassumption.
Qed.

(** In a forest of distinct objects, a visible node has only visible,
    collapsible and expanded nodes above it. *)
Lemma visible_ancestors st :
  forall ns, distinct ns ->
  forall n c,
    In n (visible st ns) -> In c (allNodes ns) -> In n (descendants c) ->
    isHidden st c = false /\
    isCollapsible st c = true /\ isExpanded st c = true.
Proof.
  apply (forest_ind (fun ns => distinct ns -> forall n c,
           In n (visible st ns) -> In c (allNodes ns) ->
           In n (descendants c) ->
           isHidden st c = false /\
           isCollapsible st c = true /\ isExpanded st c = true)).
  - intros _ n c [].
  - intros t rest IHc IHr Hd n c Hn Hc Hdesc.
    destruct (distinct_cons _ _ Hd) as (Htc & Htr & Hdc & Hdr & Hcr).
    rewrite visible_cons in Hn. simpl in Hc.
    (* where [n] lies: it is [t], below [t], or in the rest *)
    assert (Hwhere :
      (n = t /\ isHidden st t = false) \/
      (In n (visible st (Children t)) /\ isHidden st t = false /\
       isCollapsible st t = true /\ isExpanded st t = true) \/
      In n (visible st rest)).
    { destruct (isHidden st t) eqn:Ht; [now right; right|].
      destruct Hn as [<-|Hn]; [now left|].
      apply in_app_or in Hn. destruct Hn as [Hn|Hn]; [|now right; right].
      destruct (isCollapsible st t) eqn:E1, (isExpanded st t) eqn:E2;
        simpl in Hn; try contradiction.
      right; left; auto. }
    (* where [c] lies, and with it all the nodes below [c] *)
    assert (Hbelow :
      (c = t /\ In n (allNodes (Children t))) \/
      (In c (allNodes (Children t)) /\ In n (allNodes (Children t))) \/
      (In c (allNodes rest) /\ In n (allNodes rest))).
    { destruct Hc as [<-|Hc]; [now left|].
      apply in_app_or in Hc. destruct Hc as [Hc|Hc].
      - right; left; split; [assumption|].
        eapply descendants_in_allNodes; eassumption.
      - right; right; split; [assumption|].
        eapply descendants_in_allNodes; eassumption. }
    destruct Hwhere as [[-> Ht] | [(Hv & Ht & E1 & E2) | Hv]];
      destruct Hbelow as [[-> Hb] | [[Hc' Hb] | [Hc' Hb]]].
    + exfalso. apply Htc. now apply in_ids.
    + exfalso. apply Htc. now apply in_ids.
    + exfalso. apply Htr. now apply in_ids.
    + auto.
    + now apply (IHc Hdc n c).
    + exfalso. apply (Hcr (nodeId n)); apply in_ids;
        [now apply (visible_in_allNodes st) | assumption].
    + exfalso. apply (Hcr (nodeId n)); apply in_ids;
        [assumption | now apply (visible_in_allNodes st)].
    + exfalso. apply (Hcr (nodeId n)); apply in_ids;
        [assumption | now apply (visible_in_allNodes st)].
    + now apply (IHr Hdr n c).
Qed.

(* ================================================================== *)
(** * The traversal engine *)

(** C1.  [at] is documented as the early-exit form of [flatten()[i]], but
    on the tree [root -> [a, b]], [a -> [a1, a2]] with every directory
    expanded the visible order is [root, a, a1, a2, b] and [at] answers
    index 4, which is in range, with nil instead of [b]: the skip distance
    [countNodesBelow] is 0, so the running index falls behind. *)
Theorem at_differs_from_flatten :
  map nodeId (visible Sample.expanded Sample.forest)
    = [0; 1; 2; 3; 4]%nat /\
  nth_error (visible Sample.expanded Sample.forest) 4 = Some Sample.b /\
  Nodes_at Sample.expanded Sample.forest 4 = None.
Proof. repeat split. Qed.

(** C2.  [countNodesBelow] is documented as the number of all nodes below
    the given one; the root of the sample tree has four nodes below it and
    the function returns 0, as it does for every node. *)
Theorem countNodesBelow_counts_nothing :
  length (descendants Sample.root) = 4%nat /\
  countNodesBelow Sample.root = 0 /\
  forall n, countNodesBelow n = 0.
Proof.
  split; [reflexivity|]. split; [reflexivity|].
  exact countNodesBelow_zero.
Qed.

(** C5.  In a tree of distinct nodes, a node returned by [flatten] is not
    [Hidden], and it lies below no node that is [Collapsed] and below no
    node that is [Hidden]: a hidden node contributes neither itself nor its
    descendants, whatever its own [Collapsed] flag. *)
Theorem flatten_skips_hidden_and_collapsed (st : States) (ns : Nodes) :
  distinct ns ->
  forall n,
    In n (elems (flatten st ns)) ->
    isHidden st n = false /\
    forall c,
      In c (allNodes ns) ->
      Is (State st c) NodeCollapsed = true \/ isHidden st c = true ->
      ~ In n (descendants c).
Proof.
  intros Hd n Hn. split.
  - exact (visible_not_hidden st ns n Hn).
  - intros c Hc Hflag Hdesc.
    destruct (visible_ancestors st ns Hd n c Hn Hc Hdesc) as (H1 & _ & H3).
    unfold isExpanded in H3. apply negb_true_iff in H3.
    destruct Hflag; congruence.
Qed.

(** ** The range of [at] *)

Lemma size_cons n rest :
  size (ConsNode n rest) = 1 + size (Children n) + size rest.
Proof.
  unfold size.
  change (allNodes (ConsNode n rest))
    with (n :: allNodes (Children n) ++ allNodes rest).
  cbn [length]. rewrite length_app. lia.
Qed.

Lemma size_nonneg ns : 0 <= size ns.
Proof. unfold size; lia. Qed.

Lemma atOrder_length st :
  forall ns, (length (atOrder st ns) <= length (allNodes ns))%nat.
Proof.
  apply forest_ind; [simpl; lia|].
  intros t rest IHc IHr. simpl.
  destruct (isHidden st t); [rewrite length_app; lia|].
  destruct (isExpanded st t); simpl; rewrite !length_app; simpl; lia.
Qed.

Lemma atOrder_size st ns : Z.of_nat (length (atOrder st ns)) <= size ns.
Proof. unfold size. pose proof (atOrder_length st ns). lia. Qed.

(** The length of the order of [at], unfolded once. *)
Lemma atOrder_cons_length st n rest :
  Z.of_nat (length (atOrder st (ConsNode n rest))) =
  if isHidden st n then Z.of_nat (length (atOrder st rest))
  else 1 + (if isExpanded st n
            then Z.of_nat (length (atOrder st (Children n))) else 0)
         + Z.of_nat (length (atOrder st rest)).
Proof.
  cbn [atOrder].
  destruct (isHidden st n); [reflexivity|].
  cbn [length]. rewrite length_app.
  destruct (isExpanded st n); cbn [length]; lia.
Qed.

(** Whatever [at] returns sits at an index of the order the spec gives for
    it; [j] is the running index of the loop. *)
Lemma at_loop_bounds st :
  forall ns i j nn,
    GoInt.in_range i -> 0 <= j -> j + size ns <= GoInt.int_max ->
    at_loop st ns i j = Some nn ->
    j <= i < j + Z.of_nat (length (atOrder st ns)).
Proof.
  apply (forest_ind (fun ns => forall i j nn,
           GoInt.in_range i -> 0 <= j -> j + size ns <= GoInt.int_max ->
           at_loop st ns i j = Some nn ->
           j <= i < j + Z.of_nat (length (atOrder st ns)))).
  - intros i j nn _ _ _ H; discriminate.
  - intros t rest IHc IHr i j nn Hi Hj Hsz.
    rewrite size_cons in Hsz.
    pose proof (size_nonneg (Children t)) as Hc0.
    pose proof (size_nonneg rest) as Hr0.
    pose proof (atOrder_size st (Children t)) as Hlc.
    pose proof (Nat2Z.is_nonneg (length (atOrder st (Children t)))) as Hlc0.
    pose proof (Nat2Z.is_nonneg (length (atOrder st rest))) as Hlr0.
    assert (Hj1 : GoInt.add (GoInt.add j (countNodesBelow t)) 1 = j + 1).
    { rewrite countNodesBelow_zero.
      unfold GoInt.add. rewrite Z.add_0_r.
      rewrite (wrap_id j), wrap_id; int_lia. }
    assert (Hj2 : GoInt.add j 1 = j + 1).
    { apply add_exact. int_lia. }
    rewrite atOrder_cons_length. cbn [at_loop].
    destruct (isHidden st t).
    { intros H. apply IHr in H; [lia | assumption | lia | lia]. }
    destruct (Z.eqb_spec j i) as [->|Hne].
    { intros _. destruct (isExpanded st t); lia. }
    destruct (isExpanded st t).
    + destruct (at_loop st (Children t) (GoInt.sub (GoInt.sub i j) 1) 0)
        as [x|] eqn:Hin.
      * intros _.
        apply IHc in Hin;
          [ | apply wrap_range | lia
            | unfold GoInt.int_max in *; lia ].
        unfold GoInt.sub in Hin.
        destruct (wrap_cases (i - j)) as [k1 Hk1].
        destruct (wrap_cases (GoInt.wrap (i - j) - 1)) as [k2 Hk2].
        pose proof (wrap_range (i - j)) as R1.
        rewrite Hk2, Hk1 in Hin.
        unfold GoInt.in_range, GoInt.int_min, GoInt.int_max in *.
        rewrite Hk1 in R1.
        lia.
      * rewrite Hj1. intros H.
        apply IHr in H; [ | assumption | lia | lia ].
        lia.
    + rewrite Hj2. intros H.
      apply IHr in H; [ | assumption | lia | lia ].
      lia.
Qed.

Lemma collapsibleParents_cons st n rest :
  collapsibleParents st (ConsNode n rest) ->
  collapsibleParents st (Children n) /\ collapsibleParents st rest /\
  (hasChildren n = true -> isCollapsible st n = true).
Proof.
  unfold collapsibleParents; simpl; intros H. repeat split.
  - intros c Hc. apply H. right. apply in_or_app. now left.
  - intros c Hc. apply H. right. apply in_or_app. now right.
  - apply H. now left.
Qed.

Lemma no_children n : hasChildren n = false -> Children n = NoNodes.
Proof.
  unfold hasChildren, len. destruct (Children n); [reflexivity|].
  simpl. intros H. apply Z.ltb_ge in H. lia.
Qed.

(** With [Collapsible] set on every node that has children, the order of
    [at] is the visible flat order. *)
Lemma atOrder_visible st :
  forall ns, collapsibleParents st ns -> atOrder st ns = visible st ns.
Proof.
  apply (forest_ind (fun ns =>
           collapsibleParents st ns -> atOrder st ns = visible st ns)).
  - reflexivity.
  - intros t rest IHc IHr H.
    destruct (collapsibleParents_cons _ _ _ H) as (Hc & Hr & Ht).
    rewrite visible_cons. simpl.
    rewrite (IHr Hr).
    destruct (isHidden st t); [reflexivity|].
    destruct (isExpanded st t); [|now rewrite andb_false_r].
    rewrite andb_true_r.
    destruct (hasChildren t) eqn:Hk.
    + now rewrite (Ht eq_refl), (IHc Hc).
    + rewrite (no_children _ Hk).
      destruct (isCollapsible st t); reflexivity.
Qed.

(** C9.  [at] answers with nil, and never panics, when the sequence is
    empty, when the index is negative, and when the index is at or beyond
    the number of nodes in the order the spec gives for [at]; where every
    node with children is [Collapsible] that number is the length of the
    visible flat order.  [at] only reads the node states. *)
Theorem at_out_of_range (st : States) (ns : Nodes) (i : Z) :
  GoInt.in_range i ->
  size ns <= GoInt.int_max ->
  ns = NoNodes \/
  i < 0 \/
  Z.of_nat (length (atOrder st ns)) <= i \/
  (collapsibleParents st ns /\
   Z.of_nat (length (elems (flatten st ns))) <= i) ->
  Nodes_at st ns i = None.
Proof.
  intros Hi Hsz Hcase.
  destruct (Nodes_at st ns i) as [nn|] eqn:Hat; [exfalso | reflexivity].
  unfold Nodes_at in Hat.
  destruct Hcase as [-> | Hcase]; [discriminate|].
  apply at_loop_bounds in Hat; [ | assumption | lia | lia ].
  destruct Hcase as [Hneg | [Hbig | [Hflags Hbig]]]; try lia.
  rewrite (atOrder_visible st ns Hflags) in Hat.
  unfold visible in Hat. lia.
Qed.

(** At an empty sequence, at a negative index and past the end of the
    sample tree. *)
Lemma at_out_of_range_witness :
  Nodes_at Sample.expanded NoNodes 0 = None /\
  Nodes_at Sample.expanded Sample.forest (-1) = None /\
  Nodes_at Sample.expanded Sample.forest 5 = None.
Proof.
  split; [|split].
  - apply (at_out_of_range Sample.expanded NoNodes 0);
      [ int_lia
      | vm_compute; discriminate
      | left; reflexivity ].
  - apply (at_out_of_range Sample.expanded Sample.forest (-1));
      [ int_lia
      | vm_compute; discriminate
      | right; left; lia ].
  - apply (at_out_of_range Sample.expanded Sample.forest 5);
      [ int_lia
      | vm_compute; discriminate
      | right; right; left; simpl; lia ].
Defined.

(** A tree of distinct nodes with the directory [a] collapsed: [b] is
    visible and lies below no collapsed or hidden node. *)
Lemma flatten_skips_hidden_and_collapsed_witness :
  isHidden Sample.collapsedA Sample.b = false /\
  forall c,
    In c (allNodes Sample.forest) ->
    Is (State Sample.collapsedA c) NodeCollapsed = true \/
    isHidden Sample.collapsedA c = true ->
    ~ In Sample.b (descendants c).
Proof.
  apply (flatten_skips_hidden_and_collapsed Sample.collapsedA Sample.forest).
  - unfold distinct; simpl.
    repeat constructor; simpl; intuition discriminate.
  - vm_compute. auto.
Defined.

(* ================================================================== *)
(** * The branch glyphs *)

Section Glyphs.

Context {provider : Provider} {toolkit : Toolkit}.

(** The loop of [getDepth] ends before its fuel does: above [height], the
    amount of fuel does not matter. *)
Lemma getDepth_loop_fuel :
  forall fuel1 fuel2 x d,
    (height x < fuel1)%nat -> (height x < fuel2)%nat ->
    getDepth_loop fuel1 (Some x) d = getDepth_loop fuel2 (Some x) d.
Proof.
  induction fuel1 as [|f1 IH]; intros fuel2 x d H1 H2; [lia|].
  destruct fuel2 as [|f2]; [lia|]. cbn [getDepth_loop].
  destruct (Parent x) as [p|] eqn:Hp; [|reflexivity].
  pose proof (Parent_height x p Hp).
  apply IH; lia.
Qed.

(** The loop of [hasPaddingAtPos] walks to the ancestor and reads its
    [LastChild] flag. *)
Lemma hasPaddingAtPos_loop_ancestor st :
  forall k n,
    hasPaddingAtPos_loop st k n =
    match ancestor k n with
    | None => true
    | Some a => isLastNode st a
    end.
Proof.
  induction k as [|k IH]; intros n; simpl; [reflexivity|].
  destruct (Parent n) as [p|]; [apply IH | reflexivity].
Qed.

(** C8.  For a node [n], a depth [d] (the depth of [n] when a line is
    rendered) and a column [pos >= 0]: the column is padding iff [pos > d],
    or [pos < d] and the walk of [d - pos] hops to the parent runs off the
    root or reaches a [LastChild]; so it is never padding at [pos = d].
    For [pos <= d] the glyph is the padding or else the connector when
    [pos < d], and at [pos = d] the terminator when [n] is [LastChild] and
    the starter otherwise. *)
Theorem branch_glyph_of_column (m : Model) (st : States) (n : Node)
  (d pos : Z) :
  0 <= pos -> d <= GoInt.int_max ->
  (hasPaddingAtPos st (Some n) pos d = true <->
   pos > d \/
   (pos < d /\
    (ancestor (Z.to_nat (d - pos)) n = None \/
     exists a, ancestor (Z.to_nat (d - pos)) n = Some a /\
               isLastNode st a = true))) /\
  (pos <= d ->
   getTreeSymbolForPos m st (Some n) pos d =
   Some (if pos =? d
         then if isLastNode st n
              then RenderTerminator (Symbol (styles m)) (symbols m) pos
              else RenderStarter (Symbol (styles m)) (symbols m) pos
         else if hasPaddingAtPos st (Some n) pos d
              then Padding (Symbol (styles m)) (symbols m) pos
              else RenderConnector (Symbol (styles m)) (symbols m) pos)).
Proof.
  intros Hpos Hd.
  assert (Hpad :
    hasPaddingAtPos st (Some n) pos d = true <->
    pos > d \/
    (pos < d /\
     (ancestor (Z.to_nat (d - pos)) n = None \/
      exists a, ancestor (Z.to_nat (d - pos)) n = Some a /\
                isLastNode st a = true))).
  { unfold hasPaddingAtPos.
    destruct (Z.gtb_spec pos d) as [Hgt|Hle].
    { split; [intros _; left; lia | reflexivity]. }
    destruct (Z.eqb_spec pos d) as [Heq|Hne].
    { split; [discriminate | intros [H|[H _]]; lia]. }
    rewrite sub_exact by int_lia.
    rewrite hasPaddingAtPos_loop_ancestor.
    destruct (ancestor (Z.to_nat (d - pos)) n) as [a|].
    - split.
      + intros H. right. split; [lia|]. right. now exists a.
      + intros [H|[_ [H|(a' & Ha & Hl)]]];
          [lia | discriminate | congruence].
    - split; [|reflexivity].
      intros _. right. split; [lia | now left]. }
  split; [exact Hpad|].
  intros Hle. unfold getTreeSymbolForPos.
  destruct (Z.eqb_spec pos d) as [->|Hne].
  - assert (E : hasPaddingAtPos st (Some n) d d = false).
    { unfold hasPaddingAtPos.
      destruct (Z.gtb_spec d d); [lia|]. now rewrite Z.eqb_refl. }
    rewrite E.
    destruct (Z.ltb_spec d d); [lia|].
    destruct (isLastNode st n); reflexivity.
  - destruct (hasPaddingAtPos st (Some n) pos d); [reflexivity|].
    destruct (Z.ltb_spec pos d); [reflexivity | lia].
Qed.

End Glyphs.

(** The node [a1] of the sample tree, at depth 2, in its middle column. *)
Lemma branch_glyph_of_column_witness :
  let m := emptyModel Sample.root Sample.forest in
  (hasPaddingAtPos Sample.expanded (Some Sample.a1) 1 2 = true <->
   1 > 2 \/
   (1 < 2 /\
    (ancestor (Z.to_nat (2 - 1)) Sample.a1 = None \/
     exists a, ancestor (Z.to_nat (2 - 1)) Sample.a1 = Some a /\
               isLastNode Sample.expanded a = true))) /\
  (1 <= 2 ->
   getTreeSymbolForPos m Sample.expanded (Some Sample.a1) 1 2 =
   Some (if 1 =? 2
         then if isLastNode Sample.expanded Sample.a1
              then RenderTerminator (Symbol (styles m)) (symbols m) 1
              else RenderStarter (Symbol (styles m)) (symbols m) 1
         else if hasPaddingAtPos Sample.expanded (Some Sample.a1) 1 2
              then Padding (Symbol (styles m)) (symbols m) 1
              else RenderConnector (Symbol (styles m)) (symbols m) 1)).
Proof.
  intro m.
  apply (branch_glyph_of_column m Sample.expanded Sample.a1 2 1).
  - lia.
  - unfold GoInt.int_max; lia.
Defined.


(* ================================================================== *)
(** * The cursor *)

Lemma shown_cons st n rest :
  shown st (ConsNode n rest) =
  (if isHidden st n then 0 else 1) + shown st rest.
Proof.
  unfold shown. cbn [elems filter].
  destruct (isHidden st n); cbn [negb length]; lia.
Qed.

Lemma shown_nonneg st ns : 0 <= shown st ns.
Proof. unfold shown; lia. Qed.

Lemma len_cons n rest : len (ConsNode n rest) = 1 + len rest.
Proof. unfold len. cbn [elems length]. lia. Qed.

Lemma shown_le_len st ns : shown st ns <= len ns.
Proof.
  induction ns as [|n rest IH]; [unfold shown, len; simpl; lia|].
  rewrite shown_cons, len_cons. destruct (isHidden st n); lia.
Qed.

(** Only the [Hidden] flags matter to [shown]. *)
Lemma shown_ext st st' ns :
  (forall c, isHidden st' c = isHidden st c) -> shown st' ns = shown st ns.
Proof.
  intros H. induction ns as [|n rest IH]; [reflexivity|].
  now rewrite !shown_cons, H, IH.
Qed.

(** On a slice, [at] finds a node at every index below the number of
    entries that are not hidden. *)
Lemma at_loop_top st :
  forall ns i j,
    0 <= j <= i -> i - j < shown st ns -> j + len ns <= GoInt.int_max ->
    exists n, at_loop st ns i j = Some n.
Proof.
  induction ns as [|t rest IH]; intros i j Hj Hi Hlen.
  - unfold shown in Hi; simpl in Hi; lia.
  - rewrite shown_cons in Hi. rewrite len_cons in Hlen.
    pose proof (shown_le_len st rest) as Hsl.
    pose proof (shown_nonneg st rest) as Hs0.
    assert (Hj2 : GoInt.add j 1 = j + 1).
    { apply add_exact. int_lia. }
    assert (Hj1 : GoInt.add (GoInt.add j (countNodesBelow t)) 1 = j + 1).
    { rewrite countNodesBelow_zero.
      unfold GoInt.add at 2. rewrite Z.add_0_r, wrap_id; [exact Hj2|].
      int_lia. }
    cbn [at_loop].
    destruct (isHidden st t).
    { apply IH; lia. }
    destruct (Z.eqb_spec j i) as [->|Hne]; [now exists t|].
    destruct (isExpanded st t).
    + destruct (at_loop st (Children t) (GoInt.sub (GoInt.sub i j) 1) 0)
        as [x|]; [now exists x|].
      rewrite Hj1. apply IH; lia.
    + rewrite Hj2. apply IH; lia.
Qed.

(** Setting or flipping [Selected] leaves the [Hidden] flags alone. *)
Lemma isHidden_frame (f : NodeState -> NodeState) st p :
  (forall s, N.testbit (f s) 4 = N.testbit s 4) ->
  forall c, isHidden (SetState p (f (State st p)) st) c = isHidden st c.
Proof.
  intros Hf c. rewrite !isHidden_bit.
  destruct (Nat.eq_dec (nodeId c) (nodeId p)) as [E|E].
  - unfold State, SetState. rewrite E, Nat.eqb_refl. apply Hf.
  - now rewrite State_SetState_other.
Qed.

Lemma isHidden_xor_Selected st p c :
  isHidden (SetState p (N.lxor (State st p) NodeSelected) st) c
  = isHidden st c.
Proof.
  apply (isHidden_frame (fun s => N.lxor s NodeSelected)).
  intros s. rewrite N.lxor_spec. apply xorb_false_r.
Qed.

Lemma isHidden_or_Selected st p c :
  isHidden (SetState p (N.lor (State st p) NodeSelected) st) c
  = isHidden st c.
Proof.
  apply (isHidden_frame (fun s => N.lor s NodeSelected)).
  intros s. rewrite N.lor_spec. apply orb_false_r.
Qed.

Section Cursor.

Context {provider : Provider} {toolkit : Toolkit}.

Lemma withCursor_same m : withCursor (cursor m) m = m.
Proof. now destruct m. Qed.

(** [setCursor] to an index of a rendered line neither panics nor touches
    the index and the viewport. *)
Lemma setCursor_spec (new : Z) (m : Model) (st : States) :
  cursorInRange m -> linesIndexed m st ->
  0 <= new <= visibleCount m - 1 ->
  exists st',
    setCursor new m st = Some ((withCursor new m, noop), st') /\
    (forall c, isHidden st' c = isHidden st c).
Proof.
  intros Hcur [Hlines Hlen] Hnew.
  unfold setCursor.
  destruct (Z.eqb_spec new (cursor m)) as [->|Hne].
  { exists st. now rewrite withCursor_same. }
  unfold bind, get, currentNode.
  destruct (at_loop_top st (nodes m) (cursor m) 0) as [p Hp];
    [unfold cursorInRange in Hcur; lia
    | unfold cursorInRange in Hcur; lia | lia | ].
  unfold Nodes_at. rewrite Hp.
  unfold xorState, modify. cbn [cursor withCursor nodes].
  set (st1 := SetState p (N.lxor (State st p) NodeSelected) st).
  assert (H1 : forall c, isHidden st1 c = isHidden st c)
    by (intro c; apply isHidden_xor_Selected).
  destruct (at_loop_top st1 (nodes m) new 0) as [q Hq];
    [lia | rewrite (shown_ext st st1 _ H1); lia | lia | ].
  rewrite Hq.
  unfold orState, modify, ret.
  eexists; split; [reflexivity|].
  intro c. rewrite isHidden_or_Selected. apply H1.
Qed.

Lemma linesIndexed_ext m m' st st' :
  nodes m' = nodes m -> visibleCount m' = visibleCount m ->
  (forall c, isHidden st' c = isHidden st c) ->
  linesIndexed m st -> linesIndexed m' st'.
Proof.
  unfold linesIndexed. intros -> -> H [H1 H2].
  rewrite (shown_ext st st' _ H). auto.
Qed.

(** The viewport a move hands to [setCursor] holds the same lines. *)
Lemma scrolled_same_lines (m : Model) (v : viewport.Model) (b : bool) :
  viewport.lines v = viewport.lines (view m) ->
  let m1 := if b then withView v m else m in
  nodes m1 = nodes m /\ cursor m1 = cursor m /\
  visibleCount m1 = visibleCount m.
Proof.
  intros Hv. destruct b; cbn; auto.
  unfold visibleCount, viewport.TotalLineCount; cbn. now rewrite Hv.
Qed.

Lemma visibleCount_range m st :
  cursorInRange m -> linesIndexed m st ->
  1 <= visibleCount m <= GoInt.int_max.
Proof.
  unfold cursorInRange. intros Hc [Hl Hn].
  pose proof (shown_le_len st (nodes m)). lia.
Qed.

(** One move from a well-formed model. *)
Lemma move_spec (mv : Move) (m : Model) (st : States) :
  cursorInRange m -> linesIndexed m st -> fits mv m ->
  exists m' st',
    move mv m st = Some ((m', noop), st') /\
    cursorInRange m' /\ linesIndexed m' st' /\
    visibleCount m' = visibleCount m.
Proof.
  intros Hcur Hlines Hfit.
  pose proof (visibleCount_range m st Hcur Hlines) as Hvc.
  pose proof Hcur as Hcur'. unfold cursorInRange in Hcur'.
  destruct mv as [n|n]; cbn [move fits] in *.
  - (* MoveUp *)
    unfold MoveUp.
    destruct (Z.eqb_spec (cursor m) 0) as [E|E].
    { exists m, st. auto. }
    cbn zeta.
    rewrite sub_exact by int_lia.
    unfold viewport.VisibleLineIndices.
    set (new := Z.max (cursor m - n) 0).
    match goal with
    | |- context [if ?b then withView ?v m else m] =>
        destruct (scrolled_same_lines m v b eq_refl) as (Hn & Hc & Hv);
        set (m1 := if b then withView v m else m) in *
    end.
    destruct (setCursor_spec new m1 st) as (st' & Hset & Hhid).
    + unfold cursorInRange. rewrite Hc, Hv. exact Hcur'.
    + now apply (linesIndexed_ext m m1 st st).
    + rewrite Hv. unfold new. lia.
    + exists (withCursor new m1), st'. split; [exact Hset|].
      split; [|split].
      * unfold cursorInRange.
        change (visibleCount (withCursor new m1)) with (visibleCount m1).
        cbn [cursor withCursor]. rewrite Hv. unfold new. lia.
      * apply (linesIndexed_ext m _ st st'); auto.
      * exact Hv.
  - (* MoveDown *)
    unfold MoveDown.
    fold (visibleCount m).
    rewrite sub_exact by int_lia.
    destruct (Z.eqb_spec (cursor m) (visibleCount m - 1)) as [E|E].
    { exists m, st. auto. }
    cbn zeta.
    rewrite add_exact by int_lia.
    unfold viewport.VisibleLineIndices.
    set (new := Z.min (cursor m + n) (visibleCount m - 1)).
    match goal with
    | |- context [if ?b then withView ?v m else m] =>
        destruct (scrolled_same_lines m v b eq_refl) as (Hn & Hc & Hv);
        set (m1 := if b then withView v m else m) in *
    end.
    destruct (setCursor_spec new m1 st) as (st' & Hset & Hhid).
    + unfold cursorInRange. rewrite Hc, Hv. exact Hcur'.
    + now apply (linesIndexed_ext m m1 st st).
    + rewrite Hv. unfold new. lia.
    + exists (withCursor new m1), st'. split; [exact Hset|].
      split; [|split].
      * unfold cursorInRange.
        change (visibleCount (withCursor new m1)) with (visibleCount m1).
        cbn [cursor withCursor]. rewrite Hv. unfold new. lia.
      * apply (linesIndexed_ext m _ st st'); auto.
      * exact Hv.
Qed.

End Cursor.

(* ================================================================== *)
(** * Expanding and collapsing *)

Lemma flipCollapsed_other st n c :
  nodeId c <> nodeId n -> State (flipCollapsed st n) c = State st c.
Proof. apply State_SetState_other. Qed.

Lemma flipCollapsed_same st n c :
  nodeId c = nodeId n ->
  State (flipCollapsed st n) c = N.lxor (State st c) NodeCollapsed.
Proof.
  unfold flipCollapsed, State, SetState. intros ->.
  now rewrite Nat.eqb_refl.
Qed.

Lemma flipCollapsed_flags st n c :
  isHidden (flipCollapsed st n) c = isHidden st c /\
  isCollapsible (flipCollapsed st n) c = isCollapsible st c /\
  isSelected (flipCollapsed st n) c = isSelected st c /\
  isLastNode (flipCollapsed st n) c = isLastNode st c /\
  isExpanded (flipCollapsed st n) c =
    if Nat.eqb (nodeId c) (nodeId n)
    then negb (isExpanded st c) else isExpanded st c.
Proof.
  rewrite !isHidden_bit, !isCollapsible_bit, !isSelected_bit,
    !isExpanded_bit.
  unfold isLastNode. rewrite !(Is_bit _ 5).
  destruct (Nat.eqb_spec (nodeId c) (nodeId n)) as [E|E].
  - rewrite (flipCollapsed_same _ _ _ E), !N.lxor_spec.
    cbn. rewrite !xorb_false_r, xorb_true_r. auto.
  - rewrite (flipCollapsed_other _ _ _ E). auto.
Qed.

(** Flipping [Collapsed], bit 3 of the state, leaves every other bit of
    every state as it was. *)
Lemma flipCollapsed_bits st n c k :
  k <> 3%N ->
  N.testbit (State (flipCollapsed st n) c) k = N.testbit (State st c) k.
Proof.
  intros Hk.
  destruct (Nat.eq_dec (nodeId c) (nodeId n)) as [E|E].
  - rewrite (flipCollapsed_same _ _ _ E), N.lxor_spec.
    change NodeCollapsed with (2 ^ 3)%N.
    rewrite N.pow2_bits_eqb.
    destruct (N.eqb_spec 3 k) as [<-|_]; [congruence|].
    apply xorb_false_r.
  - now rewrite (flipCollapsed_other _ _ _ E).
Qed.

(** [flatten] reads the states of the nodes of the forest only. *)
Lemma visible_ext st st' :
  forall ns,
    (forall c, In c (allNodes ns) -> State st' c = State st c) ->
    visible st' ns = visible st ns.
Proof.
  apply (forest_ind (fun ns =>
           (forall c, In c (allNodes ns) -> State st' c = State st c) ->
           visible st' ns = visible st ns)).
  - reflexivity.
  - intros t rest IHc IHr H. rewrite !visible_cons.
    assert (Ht : State st' t = State st t) by (apply H; now left).
    unfold isHidden, isCollapsible, isExpanded. rewrite Ht.
    rewrite IHc, IHr; [reflexivity | |];
      intros c Hc; apply H; right; apply in_or_app; auto.
Qed.

Lemma visible_flip_elsewhere st n ns :
  ~ In (nodeId n) (ids ns) ->
  visible (flipCollapsed st n) ns = visible st ns.
Proof.
  intros H. apply visible_ext. intros c Hc.
  apply flipCollapsed_other. intros E. apply H. rewrite <- E.
  now apply in_ids.
Qed.

(** In a forest of distinct objects a node is known by its identity. *)
Lemma distinct_same_node ns x y :
  distinct ns -> In x (allNodes ns) -> In y (allNodes ns) ->
  nodeId x = nodeId y -> x = y.
Proof.
  unfold distinct, ids.
  induction (allNodes ns) as [|z l IH]; simpl; [contradiction|].
  intros Hd Hx Hy E. inversion Hd as [|? ? Hz Hl]; subst.
  destruct Hx as [->|Hx], Hy as [->|Hy]; auto.
  - exfalso. apply Hz. rewrite E. now apply in_map.
  - exfalso. apply Hz. rewrite <- E. now apply in_map.
Qed.

(** Flipping [Collapsed] on a visible collapsible node of a tree of
    distinct nodes removes, or brings back, exactly its visible
    descendants. *)
Lemma visible_flip_length st n :
  isCollapsible st n = true ->
  forall ns,
    distinct ns -> In n (visible st ns) ->
    Z.of_nat (length (visible (flipCollapsed st n) ns)) =
    Z.of_nat (length (visible st ns)) +
    (if isExpanded st n then -1 else 1)
    * Z.of_nat (length (visible st (Children n))).
Proof.
  intros Hcoll.
  apply (forest_ind (fun ns =>
           distinct ns -> In n (visible st ns) ->
           Z.of_nat (length (visible (flipCollapsed st n) ns)) =
           Z.of_nat (length (visible st ns)) +
           (if isExpanded st n then -1 else 1)
           * Z.of_nat (length (visible st (Children n))))).
  - intros _ [].
  - intros t rest IHc IHr Hd Hn.
    destruct (distinct_cons _ _ Hd) as (Htc & Htr & Hdc & Hdr & Hcr).
    pose proof (visible_in_allNodes st _ _ Hn) as Hn_all.
    pose proof (visible_not_hidden st _ _ Hn) as Hn_vis.
    destruct (flipCollapsed_flags st n t) as (Fh & Fc & _ & _ & Fe).
    rewrite visible_cons in Hn. rewrite !visible_cons, Fh, Fc, Fe.
    destruct (Nat.eqb_spec (nodeId t) (nodeId n)) as [E|E].
    + (* the first node is the one that is flipped *)
      assert (t = n).
      { apply (distinct_same_node (ConsNode t rest)); auto. now left. }
      subst t. rewrite Hn_vis, Hcoll.
      rewrite (visible_flip_elsewhere st n _ Htc),
        (visible_flip_elsewhere st n _ Htr).
      destruct (isExpanded st n); cbn [negb andb length];
        rewrite ?length_app; cbn [app length]; lia.
    + destruct (isHidden st t).
      { now apply IHr. }
      destruct Hn as [->|Hn]; [congruence|].
      apply in_app_or in Hn. destruct Hn as [Hn|Hn].
      * destruct (isCollapsible st t && isExpanded st t);
          [|contradiction].
        assert (Hnr : ~ In (nodeId n) (ids rest)).
        { apply Hcr, in_ids. now apply (visible_in_allNodes st). }
        rewrite (visible_flip_elsewhere st n _ Hnr).
        cbn [length]. rewrite !length_app.
        specialize (IHc Hdc Hn). lia.
      * assert (Hnc : ~ In (nodeId n) (ids (Children t))).
        { intros Hin. apply (Hcr _ Hin), in_ids.
          now apply (visible_in_allNodes st). }
        rewrite (visible_flip_elsewhere st n _ Hnc).
        cbn [length]. rewrite !length_app.
        specialize (IHr Hdr Hn). lia.
Qed.

(** C3, as the code has it.  [ToggleExpand] on a current node that is not
    [Collapsible] changes nothing.  On a [Collapsible] current node it
    flips that node's [Collapsed] flag and nothing else: the new state of
    the node is the old one with the [Collapsed] bit flipped, and every
    other bit of every state and every other node are as they were.  The
    visible flat order of any tree of distinct nodes in which the node is
    visible changes in length by the number of the node's visible
    descendants: it loses them on collapse and gains them on expand. *)
Theorem ToggleExpand_effect {provider : Provider} {toolkit : Toolkit}
  (m : Model) (st : States) (n : Node) :
  currentNode m st = Some n ->
  (isCollapsible st n = false -> ToggleExpand m st = Some (m, st)) /\
  (isCollapsible st n = true ->
   exists st',
     ToggleExpand m st = Some (m, st') /\
     isExpanded st' n = negb (isExpanded st n) /\
     State st' n = N.lxor (State st n) NodeCollapsed /\
     (forall c, isHidden st' c = isHidden st c /\
                isCollapsible st' c = isCollapsible st c /\
                isSelected st' c = isSelected st c /\
                isLastNode st' c = isLastNode st c /\
                hasPreviousSibling st' c = hasPreviousSibling st c) /\
     (forall c k, k <> 3%N ->
                  N.testbit (State st' c) k = N.testbit (State st c) k) /\
     (forall c, nodeId c <> nodeId n -> State st' c = State st c) /\
     forall roots,
       distinct roots -> In n (elems (flatten st roots)) ->
       Z.of_nat (length (elems (flatten st' roots))) =
       Z.of_nat (length (elems (flatten st roots))) +
       (if isExpanded st n then -1 else 1)
       * Z.of_nat (length (elems (flatten st (Children n))))).
Proof.
  intros Hcur. unfold ToggleExpand, bind, get. rewrite Hcur.
  split; intros Hc; rewrite Hc; cbn [negb]; [reflexivity|].
  exists (flipCollapsed st n).
  split; [reflexivity|].
  split.
  { destruct (flipCollapsed_flags st n n) as (_ & _ & _ & _ & E).
    now rewrite Nat.eqb_refl in E. }
  split.
  { now apply flipCollapsed_same. }
  split.
  { intro c. destruct (flipCollapsed_flags st n c) as (H1 & H2 & H3 & H4 & _).
    repeat split; auto.
    unfold hasPreviousSibling. change NodeHasPreviousSibling with (2 ^ 6)%N.
    rewrite !Is_bit. now apply flipCollapsed_bits. }
  split.
  { intros c k Hk. now apply flipCollapsed_bits. }
  split.
  { intros c. apply flipCollapsed_other. }
  intros roots Hd Hn. now apply visible_flip_length.
Qed.

(** The root of the sample tree, expanded over the collapsed directory
    [a], is collapsed: the visible order [root, a, b] loses [a] and [b]. *)
Lemma ToggleExpand_effect_witness :
  let m := fst Sample.startedCollapsedA in
  let st := snd Sample.startedCollapsedA in
  exists st',
    ToggleExpand m st = Some (m, st') /\
    isExpanded st' Sample.root = negb (isExpanded st Sample.root) /\
    State st' Sample.root = N.lxor (State st Sample.root) NodeCollapsed /\
    Z.of_nat (length (elems (flatten st' Sample.forest))) =
    Z.of_nat (length (elems (flatten st Sample.forest))) +
    (if isExpanded st Sample.root then -1 else 1)
    * Z.of_nat (length (elems (flatten st (Children Sample.root)))).
Proof.
  intros m st.
  destruct (ToggleExpand_effect m st Sample.root) as [_ H].
  - vm_compute. reflexivity.
  - destruct H as (st' & Ht & He & Hst & _ & _ & _ & Hlen).
    + vm_compute. reflexivity.
    + exists st'. split; [exact Ht|]. split; [exact He|].
      split; [exact Hst|].
      apply Hlen.
      * unfold distinct; simpl.
        repeat constructor; simpl; intuition discriminate.
      * vm_compute. auto.
Defined.

(** C3, as the claim states it, fails: collapsing the root of the sample
    tree while [a] is collapsed takes the visible order from 3 nodes to 1,
    a change of 2, where [countNodesBelow] gives 0 and the root has 4
    descendants. *)
Lemma ToggleExpand_change_is_not_countBelow :
  let m := fst Sample.startedCollapsedA in
  let st := snd Sample.startedCollapsedA in
  New Sample.forest Sample.collapsedA = Some (m, st) /\
  currentNode m st = Some Sample.root /\
  isCollapsible st Sample.root = true /\
  isExpanded st Sample.root = true /\
  exists st',
    ToggleExpand m st = Some (m, st') /\
    isExpanded st' Sample.root = false /\
    length (elems (flatten st Sample.forest)) = 3%nat /\
    length (elems (flatten st' Sample.forest)) = 1%nat /\
    countNodesBelow Sample.root = 0 /\
    length (descendants Sample.root) = 4%nat.
Proof.
  intros m st.
  split; [reflexivity|].
  split; [vm_compute; reflexivity|].
  split; [vm_compute; reflexivity|].
  split; [vm_compute; reflexivity|].
  exists (flipCollapsed st Sample.root).
  split; [vm_compute; reflexivity|].
  vm_compute. auto 10.
Qed.

(* ================================================================== *)
(** * Selection and the sibling flags *)

(** C4.  [Blur] and [setCursor] deselect with an exclusive or, which the
    code marks as the wrong operator.  Over the sample tree: after [New],
    one node is selected; after [Blur] none; a second [Blur] selects the
    root again while the model is blurred; and [Blur], [Focus],
    [MoveDown(1)] leaves two nodes selected, the root and [a]. *)
Theorem selection_is_flipped_not_cleared :
  let created := Some Sample.started in
  let blurred := andThen created Blur in
  let blurredTwice := andThen blurred Blur in
  let moved :=
    andThen (andThen blurred Focus) (fun m => MoveDown 1 m) in
  New Sample.forest Sample.expanded = created /\
  option_map (fun r => selectedCount (snd r) Sample.forest) created
    = Some 1%nat /\
  option_map (fun r => (focus (fst r), selectedCount (snd r) Sample.forest))
    blurred = Some (false, 0%nat) /\
  option_map (fun r => (focus (fst r), cursor (fst r),
                        selectedCount (snd r) Sample.forest,
                        isSelected (snd r) Sample.root))
    blurredTwice = Some (false, 0, 1%nat, true) /\
  option_map (fun r => (focus (fst (fst r)), cursor (fst (fst r)),
                        selectedCount (snd r) Sample.forest,
                        isSelected (snd r) Sample.root,
                        isSelected (snd r) Sample.a))
    moved = Some (true, 1, 2%nat, true, true).
Proof. vm_compute. auto. Qed.

(** C6.  [renderNodes] is handed the flat index, not a list of siblings,
    and only ever adds flags.  After [New] over the sample tree with every
    directory expanded, [b] alone holds [LastChild]: [a2], the last child
    of [a], and the root, the last root, do not. *)
Theorem LastChild_follows_the_flat_index :
  let st := snd Sample.started in
  New Sample.forest Sample.expanded = Some Sample.started /\
  map nodeId (elems (nodes (fst Sample.started))) = [0; 1; 2; 3; 4]%nat /\
  map (isLastNode st)
    [Sample.root; Sample.a; Sample.a1; Sample.a2; Sample.b]
  = [false; false; false; false; true] /\
  map (hasPreviousSibling st)
    [Sample.root; Sample.a; Sample.a1; Sample.a2; Sample.b]
  = [false; true; true; true; true].
Proof. vm_compute. auto. Qed.

(* ================================================================== *)
(** * Messages without focus *)

(** C10.  While the model is not focused [Update] returns the model and
    the node states as they are, with the nil command, for every message:
    keys, the expand toggle and resize notifications alike. *)
Theorem Update_without_focus {provider : Provider} {toolkit : Toolkit}
  (msg : Msg) (m : Model) (st : States) :
  focus m = false ->
  Update msg m st = Some ((m, noop), st).
Proof.
  intros H. unfold Update. rewrite H. reflexivity.
Qed.

(** A blurred model built over the sample tree receives a key. *)
Lemma Update_without_focus_witness :
  let m := emptyModel Sample.root Sample.forest in
  Update (KeyMsg "down") m Sample.expanded = Some ((m, noop), Sample.expanded).
Proof.
  intro m.
  apply (Update_without_focus (KeyMsg "down") m Sample.expanded).
  reflexivity.
Defined.

(* ================================================================== *)
(** * The model after construction *)

Section Construction.

Context {provider : Provider} {toolkit : Toolkit}.

Lemma getTreeSymbolForPos_some m st n pos d :
  exists g, getTreeSymbolForPos m st (Some n) pos d = Some g.
Proof.
  unfold getTreeSymbolForPos.
  destruct (hasPaddingAtPos st (Some n) pos d); [eauto|].
  destruct (pos <? d); [eauto|].
  destruct (isLastNode st n); eauto.
Qed.

Lemma renderSymbols_loop_some m st n d :
  forall count pos prefix,
    exists s, renderSymbols_loop m st n d count pos prefix = Some s.
Proof.
  induction count as [|k IH]; intros pos prefix; cbn [renderSymbols_loop].
  - eauto.
  - destruct (getTreeSymbolForPos_some m st n pos d) as [g ->]. apply IH.
Qed.

(** Rendering a node that is not nil does not panic and writes nothing. *)
Lemma renderNode_some m n st :
  exists s, renderNode m (Some n) st = Some (s, st).
Proof.
  unfold renderNode, renderSymbolsForSingleLineNode.
  destruct (renderSymbols_loop_some m st n (getDepth (Some n))
              (Z.to_nat (getDepth (Some n) + 1)) 0 EmptyString) as [g ->].
  eauto.
Qed.

(** The hints never carry [Hidden]. *)
Lemma hintsFor_keeps_Hidden n i total s :
  N.testbit (N.lor s (hintsFor n i total)) 4 = N.testbit s 4.
Proof.
  rewrite N.lor_spec. unfold hintsFor.
  destruct (i >? 0), (hasChildren n), (i =? GoInt.sub total 1);
    cbn; apply orb_false_r.
Qed.

(** [renderNodes] does not panic, renders at most one row for each entry
    that is not hidden, and leaves the [Hidden] flags as they are. *)
Lemma renderNodes_loop_spec m total :
  forall ns i rendered st,
    exists rows st',
      renderNodes_loop m total ns i rendered st = Some (rows, st') /\
      Z.of_nat (length rows) <= Z.of_nat (length rendered) + shown st ns /\
      (forall c, isHidden st' c = isHidden st c).
Proof.
  induction ns as [|t rest IH]; intros i rendered st.
  - exists rendered, st. unfold shown; simpl. repeat split; lia.
  - cbn [renderNodes_loop]. unfold bind at 1, get. rewrite shown_cons.
    destruct (isHidden st t) eqn:Ht.
    + destruct (IH (GoInt.add i 1) rendered st) as (rows & st' & E & L & H).
      exists rows, st'. repeat split; [exact E | lia | exact H].
    + unfold bind, orState, modify.
      set (st1 := SetState t (N.lor (State st t) (hintsFor t i total)) st).
      assert (H1 : forall c, isHidden st1 c = isHidden st c).
      { intro c.
        apply (isHidden_frame (fun s => N.lor s (hintsFor t i total))).
        intro s. apply hintsFor_keeps_Hidden. }
      destruct (renderNode_some m t st1) as [out ->].
      match goal with
      | |- context [renderNodes_loop m total rest _ ?r st1] =>
          destruct (IH (GoInt.add i 1) r st1) as (rows & st' & E & L & H);
          assert (Hr : Z.of_nat (length r) <= Z.of_nat (length rendered) + 1)
      end.
      { destruct (0 <? Z.of_nat (String.length out));
          rewrite ?length_app; cbn [length]; lia. }
      exists rows, st'. split; [exact E|]. split.
      * rewrite (shown_ext st st1 _ H1) in L. lia.
      * intro c. now rewrite H, H1.
Qed.

Lemma visible_length st :
  forall ns, (length (visible st ns) <= length (allNodes ns))%nat.
Proof.
  apply forest_ind; [simpl; lia|].
  intros t rest IHc IHr. rewrite visible_cons. cbn [allNodes length].
  rewrite length_app.
  destruct (isHidden st t); [lia|].
  cbn [length]. rewrite length_app.
  destruct (isCollapsible st t && isExpanded st t); cbn [length]; lia.
Qed.

(** [New] over a sequence that is not empty does not panic; the cursor is
    0 and every line of the viewport comes from an entry of the flat index
    that is not hidden, so the cursor is in range as soon as a line was
    rendered. *)
Lemma New_spec (ns : Nodes) (st : States) :
  ns <> NoNodes -> size ns <= GoInt.int_max ->
  exists m st',
    New ns st = Some (m, st') /\
    cursor m = 0 /\ focus m = false /\
    linesIndexed m st' /\
    (1 <= visibleCount m -> cursorInRange m).
Proof.
  intros Hne Hsz. destruct ns as [|r rest]; [congruence|].
  unfold New, bind, orState, modify, get, renderAllNodes, renderNodes,
    AllNodes.
  cbn [nodes].
  set (st1 := SetState r (N.lor (State st r) NodeSelected) st).
  set (flat := flatten st1 (ConsNode r rest)).
  match goal with
  | |- context [renderNodes_loop ?m0 ?total flat 0 [] st1] =>
      destruct (renderNodes_loop_spec m0 total flat 0 [] st1)
        as (rows & st' & E & L & H);
      rewrite E
  end.
  unfold ret. eexists; eexists. split; [reflexivity|].
  cbn [cursor focus withView].
  assert (Hv : forall v, visibleCount
                 (withView (viewport.SetContent rows v)
                    {| root := r; nodes := flat; view := v; focus := false;
                       cursor := 0; keyMap := DefaultKeyMap;
                       styles := DefaultStyles; symbols := DefaultSymbols |})
               = Z.of_nat (length rows)) by reflexivity.
  split; [reflexivity|]. split; [reflexivity|].
  assert (Hlines : Z.of_nat (length rows) <= shown st' flat).
  { cbn [length] in L. rewrite (shown_ext st1 st' _ H). lia. }
  split; [split|].
  - rewrite Hv. exact Hlines.
  - cbn [nodes withView]. unfold len.
    pose proof (visible_length st1 (ConsNode r rest)) as Hl.
    unfold visible in Hl. fold flat in Hl. unfold size in Hsz. lia.
  - unfold cursorInRange. rewrite Hv. cbn [cursor withView]. lia.
Qed.

End Construction.

(* ================================================================== *)
(** * More on the flags and the traversal *)

(** X1.  [clamp] over any ordered type, when [max] is not below [min]:
    the answer is never below [min] and never above [max].  It is [min]
    when the value is below [min], [max] when the value is not below [min]
    and is above [max], and the value itself when neither comparison
    holds, which for a float NaN is the NaN itself. *)
Theorem clamp_within {T : Type} `{Ordered T} (value min max : T) :
  less max min = false ->
  less (clamp value min max) min = false /\
  greater (clamp value min max) max = false /\
  (less value min = true -> clamp value min max = min) /\
  (less value min = false -> greater value max = true ->
   clamp value min max = max) /\
  (less value min = false -> greater value max = false ->
   clamp value min max = value).
Proof.
  intros Hmm. unfold clamp, greater.
  destruct (less value min) eqn:E1.
  - rewrite less_irrefl. repeat split; auto; discriminate.
  - destruct (less max value) eqn:E2.
    + rewrite less_irrefl. repeat split; auto; discriminate.
    + repeat split; auto; discriminate.
Qed.

(** On [int] the answer lies in the interval: 7 clamped to [[0, 4]]. *)
Lemma clamp_within_witness :
  0 <= clamp 7 0 4 <= 4 /\ clamp 7 0 4 = 4.
Proof.
  destruct (clamp_within 7 0 4) as (H1 & H2 & _ & H4 & _).
  - reflexivity.
  - split.
    + split.
      * apply Z.ltb_ge. exact H1.
      * apply Z.ltb_ge. exact H2.
    + apply H4; reflexivity.
Defined.



(** A node that is not hidden and has only visible, collapsible and
    expanded nodes above it is returned by [flatten]. *)
Lemma visible_complete st :
  forall ns n,
    In n (allNodes ns) -> isHidden st n = false ->
    (forall c, In c (allNodes ns) -> In n (descendants c) ->
               isHidden st c = false /\
               isCollapsible st c = true /\ isExpanded st c = true) ->
    In n (visible st ns).
Proof.
  apply (forest_ind (fun ns => forall n,
           In n (allNodes ns) -> isHidden st n = false ->
           (forall c, In c (allNodes ns) -> In n (descendants c) ->
                      isHidden st c = false /\
                      isCollapsible st c = true /\ isExpanded st c = true) ->
           In n (visible st ns))).
  - intros n [].
  - intros t rest IHc IHr n Hn Hvis Hanc.
    rewrite visible_cons. cbn [allNodes] in Hn.
    destruct Hn as [<-|Hn].
    { rewrite Hvis. now left. }
    apply in_app_or in Hn. destruct Hn as [Hn|Hn].
    + destruct (Hanc t) as (H1 & H2 & H3); [now left | exact Hn |].
      rewrite H1, H2, H3. right. apply in_or_app. left.
      apply IHc; auto. intros c Hc Hd. apply Hanc; auto.
      right. apply in_or_app. now left.
    + assert (In n (visible st rest)).
      { apply IHr; auto. intros c Hc Hd. apply Hanc; auto.
        right. apply in_or_app. now right. }
      destruct (isHidden st t); [assumption|].
      right. apply in_or_app. now right.
Qed.

(** X3.  In a tree of distinct nodes [flatten] returns exactly the nodes
    that are not hidden and have only nodes above them that are not hidden,
    are [Collapsible] and are not [Collapsed]. *)
Theorem flatten_characterised (st : States) (ns : Nodes) (n : Node) :
  distinct ns ->
  (In n (elems (flatten st ns)) <->
   In n (allNodes ns) /\ isHidden st n = false /\
   forall c, In c (allNodes ns) -> In n (descendants c) ->
             isHidden st c = false /\
             isCollapsible st c = true /\ isExpanded st c = true).
Proof.
  intros Hd. split.
  - intros Hn. split; [now apply (visible_in_allNodes st)|].
    split; [now apply (visible_not_hidden st ns)|].
    intros c Hc Hdesc. now apply (visible_ancestors st ns Hd n c).
  - intros (Hn & Hvis & Hanc). now apply visible_complete.
Qed.

Lemma flatten_characterised_witness :
  In Sample.a1 (elems (flatten Sample.expanded Sample.forest)) <->
  In Sample.a1 (allNodes Sample.forest) /\
  isHidden Sample.expanded Sample.a1 = false /\
  forall c, In c (allNodes Sample.forest) -> In Sample.a1 (descendants c) ->
            isHidden Sample.expanded c = false /\
            isCollapsible Sample.expanded c = true /\
            isExpanded Sample.expanded c = true.
Proof.
  apply (flatten_characterised Sample.expanded Sample.forest Sample.a1).
  unfold distinct; simpl.
  repeat constructor; simpl; intuition discriminate.
Defined.

Lemma in_visible_ids st ns n :
  In n (visible st ns) -> In (nodeId n) (ids ns).
Proof. intros H. apply in_ids. now apply (visible_in_allNodes st). Qed.

(** X4.  In a tree of distinct nodes no object occurs twice in the result
    of [flatten], so an index of the visible order names one node. *)
Theorem flatten_no_duplicates (st : States) :
  forall ns, distinct ns -> NoDup (map nodeId (elems (flatten st ns))).
Proof.
  fold (visible st).
  apply (forest_ind (fun ns =>
           distinct ns -> NoDup (map nodeId (visible st ns)))).
  - intros _. constructor.
  - intros t rest IHc IHr Hd.
    destruct (distinct_cons _ _ Hd) as (Htc & Htr & Hdc & Hdr & Hcr).
    rewrite visible_cons.
    destruct (isHidden st t); [now apply IHr|].
    cbn [map]. rewrite map_app. constructor.
    + intros Hin. apply in_app_or in Hin. destruct Hin as [Hin|Hin];
        apply in_map_iff in Hin; destruct Hin as (x & Ex & Hx).
      * destruct (isCollapsible st t && isExpanded st t); [|contradiction].
        apply Htc. rewrite <- Ex. now apply (in_visible_ids st).
      * apply Htr. rewrite <- Ex. now apply (in_visible_ids st).
    + apply NoDup_app.
      * destruct (isCollapsible st t && isExpanded st t);
          [now apply IHc | constructor].
      * now apply IHr.
      * intros k Hk Hk'.
        apply in_map_iff in Hk. destruct Hk as (x & Ex & Hx).
        apply in_map_iff in Hk'. destruct Hk' as (y & Ey & Hy).
        destruct (isCollapsible st t && isExpanded st t); [|contradiction].
        apply (Hcr k).
        -- rewrite <- Ex. now apply (in_visible_ids st).
        -- rewrite <- Ey. now apply (in_visible_ids st).
Qed.

Lemma flatten_no_duplicates_witness :
  NoDup (map nodeId (elems (flatten Sample.collapsedA Sample.forest))).
Proof.
  apply (flatten_no_duplicates Sample.collapsedA Sample.forest).
  unfold distinct; simpl.
  repeat constructor; simpl; intuition discriminate.
Defined.

Lemma flatten_loop_ext st st' :
  (forall c, isHidden st' c = isHidden st c) ->
  (forall c, isCollapsible st' c = isCollapsible st c) ->
  (forall c, isExpanded st' c = isExpanded st c) ->
  forall ns res, flatten_loop st' ns res = flatten_loop st ns res.
Proof.
  intros Hh Hc He.
  apply (forest_ind (fun ns => forall res,
           flatten_loop st' ns res = flatten_loop st ns res)).
  - reflexivity.
  - intros t rest IHc IHr res. cbn [flatten_loop].
    now rewrite Hh, Hc, He, IHc, !IHr.
Qed.

Lemma at_loop_ext st st' :
  (forall c, isHidden st' c = isHidden st c) ->
  (forall c, isExpanded st' c = isExpanded st c) ->
  forall ns i j, at_loop st' ns i j = at_loop st ns i j.
Proof.
  intros Hh He.
  apply (forest_ind (fun ns => forall i j,
           at_loop st' ns i j = at_loop st ns i j)).
  - reflexivity.
  - intros t rest IHc IHr i j. cbn [at_loop].
    now rewrite Hh, He, IHc, !IHr.
Qed.

(** X5.  [flatten] reads the flags [Hidden], [Collapsible] and [Collapsed]
    and [at] reads [Hidden] and [Collapsed], nothing else: two stores that
    agree on them give the same visible order and the same node at every
    index. *)
Theorem traversal_reads_its_flags (st st' : States) (ns : Nodes) (i : Z) :
  (forall c, isHidden st' c = isHidden st c) ->
  (forall c, isExpanded st' c = isExpanded st c) ->
  Nodes_at st' ns i = Nodes_at st ns i /\
  ((forall c, isCollapsible st' c = isCollapsible st c) ->
   flatten st' ns = flatten st ns).
Proof.
  intros Hh He. split.
  - apply at_loop_ext; assumption.
  - intros Hc. apply flatten_loop_ext; assumption.
Qed.

(** Writing a state that keeps bit [k] of the old one keeps bit [k] of
    every node. *)
Lemma bit_frame (f : NodeState -> NodeState) (k : N) st p :
  (forall s, N.testbit (f s) k = N.testbit s k) ->
  forall c,
    N.testbit (State (SetState p (f (State st p)) st) c) k
    = N.testbit (State st c) k.
Proof.
  intros Hf c.
  destruct (Nat.eq_dec (nodeId c) (nodeId p)) as [E|E].
  - unfold State, SetState. rewrite E, Nat.eqb_refl. apply Hf.
  - now rewrite State_SetState_other.
Qed.

Lemma isLastNode_bit st n : isLastNode st n = N.testbit (State st n) 5.
Proof. exact (Is_bit (State st n) 5). Qed.

Lemma hasPreviousSibling_bit st n :
  hasPreviousSibling st n = N.testbit (State st n) 6.
Proof. exact (Is_bit (State st n) 6). Qed.

(** Flipping or setting [Selected] on a node keeps every other flag of
    every node. *)
Lemma Selected_frame (op : N -> N -> N) st p :
  (forall s k, k <> 1%N ->
               N.testbit (op s NodeSelected) k = N.testbit s k) ->
  let st' := SetState p (op (State st p) NodeSelected) st in
  forall c,
    isHidden st' c = isHidden st c /\
    isExpanded st' c = isExpanded st c /\
    isCollapsible st' c = isCollapsible st c /\
    isLastNode st' c = isLastNode st c /\
    hasPreviousSibling st' c = hasPreviousSibling st c.
Proof.
  intros Hop st' c.
  rewrite !isHidden_bit, !isExpanded_bit, !isCollapsible_bit,
    !isLastNode_bit, !hasPreviousSibling_bit.
  unfold st'.
  rewrite !(bit_frame (fun s => op s NodeSelected))
    by (intro s; apply Hop; discriminate).
  auto.
Qed.

Lemma lxor_Selected_other s k :
  k <> 1%N -> N.testbit (N.lxor s NodeSelected) k = N.testbit s k.
Proof.
  intros Hk. rewrite N.lxor_spec.
  change NodeSelected with (2 ^ 1)%N.
  rewrite N.pow2_bits_false by congruence. apply xorb_false_r.
Qed.

Lemma lor_Selected_other s k :
  k <> 1%N -> N.testbit (N.lor s NodeSelected) k = N.testbit s k.
Proof.
  intros Hk. rewrite N.lor_spec.
  change NodeSelected with (2 ^ 1)%N.
  rewrite N.pow2_bits_false by congruence. apply orb_false_r.
Qed.

(** Deselecting the root of the sample tree changes neither the node at
    index 2 nor the visible order. *)
Lemma traversal_reads_its_flags_witness :
  let st := snd Sample.started in
  let st' := SetState Sample.root
               (N.lxor (State st Sample.root) NodeSelected) st in
  Nodes_at st' Sample.forest 2 = Nodes_at st Sample.forest 2 /\
  ((forall c, isCollapsible st' c = isCollapsible st c) ->
   flatten st' Sample.forest = flatten st Sample.forest).
Proof.
  intros st st'.
  apply (traversal_reads_its_flags st st' Sample.forest 2);
    intro c;
    destruct (Selected_frame N.lxor st Sample.root lxor_Selected_other c)
      as (H1 & H2 & _); assumption.
Defined.

Lemma atOrder_not_hidden st :
  forall ns n, In n (atOrder st ns) -> isHidden st n = false.
Proof.
  apply (forest_ind (fun ns => forall n,
           In n (atOrder st ns) -> isHidden st n = false)).
  - intros n [].
  - intros t rest IHc IHr n. cbn [atOrder].
    destruct (isHidden st t) eqn:Ht; [apply IHr|].
    intros [<-|H]; [exact Ht|].
    apply in_app_or in H. destruct H as [H|H]; [|now apply IHr].
    destruct (isExpanded st t); [now apply IHc | contradiction].
Qed.

Lemma at_loop_in_atOrder st :
  forall ns i j n, at_loop st ns i j = Some n -> In n (atOrder st ns).
Proof.
  apply (forest_ind (fun ns => forall i j n,
           at_loop st ns i j = Some n -> In n (atOrder st ns))).
  - discriminate.
  - intros t rest IHc IHr i j n. cbn [at_loop atOrder].
    destruct (isHidden st t); [apply IHr|].
    destruct (j =? i).
    { intros E; injection E as <-. now left. }
    destruct (isExpanded st t).
    + destruct (at_loop st (Children t) (GoInt.sub (GoInt.sub i j) 1) 0)
        as [x|] eqn:Hin.
      * intros E; injection E as <-. right. apply in_or_app. left.
        exact (IHc _ _ _ Hin).
      * intros H. right. apply in_or_app. right. exact (IHr _ _ _ H).
    + intros H. right. exact (IHr _ _ _ H).
Qed.

(** X6.  Whatever the index, a node that [at] returns is not hidden and
    belongs to the order [at] is meant to index: it is a node of the
    forest reached through nodes that are neither hidden nor collapsed;
    where every node with children is [Collapsible] it is an element of
    [flatten]. *)
Theorem at_returns_visible_nodes (st : States) (ns : Nodes) (i : Z)
  (n : Node) :
  Nodes_at st ns i = Some n ->
  isHidden st n = false /\
  In n (atOrder st ns) /\
  (collapsibleParents st ns -> In n (elems (flatten st ns))).
Proof.
  intros H. apply at_loop_in_atOrder in H.
  split; [exact (atOrder_not_hidden st ns n H)|].
  split; [exact H|].
  intros Hc. rewrite (atOrder_visible st ns Hc) in H. exact H.
Qed.

Lemma at_returns_visible_nodes_witness :
  isHidden Sample.expanded Sample.a2 = false /\
  In Sample.a2 (atOrder Sample.expanded Sample.forest) /\
  (collapsibleParents Sample.expanded Sample.forest ->
   In Sample.a2 (elems (flatten Sample.expanded Sample.forest))).
Proof.
  apply (at_returns_visible_nodes Sample.expanded Sample.forest 3).
  reflexivity.
Defined.

(** X7.  Index 0 is answered with the first node of the visible order:
    the first entry that is not hidden, or nil when there is none. *)
Theorem at_zero_is_first_visible (st : States) (ns : Nodes) :
  Nodes_at st ns 0 = hd_error (elems (flatten st ns)).
Proof.
  fold (visible st ns). unfold Nodes_at.
  induction ns as [|t rest IH]; [reflexivity|].
  rewrite visible_cons. cbn [at_loop].
  destruct (isHidden st t); [exact IH | reflexivity].
Qed.

(** The entries of a slice have no children. *)
Definition leaves (ns : Nodes) : Prop :=
  forall n, In n (elems ns) -> Children n = NoNodes.

Lemma at_loop_leaves st :
  forall ns i j,
    leaves ns -> 0 <= j <= i -> j + len ns <= GoInt.int_max ->
    at_loop st ns i j = nth_error (visible st ns) (Z.to_nat (i - j)).
Proof.
  induction ns as [|t rest IH]; intros i j Hl Hj Hlen.
  - cbn. now destruct (Z.to_nat (i - j)).
  - rewrite len_cons in Hlen.
    pose proof (Nat2Z.is_nonneg (length (elems rest))) as Hr0.
    fold (len rest) in Hr0.
    assert (Hl' : leaves rest) by (intros n Hn; apply Hl; now right).
    assert (Ht : Children t = NoNodes) by (apply Hl; now left).
    assert (Hj2 : GoInt.add j 1 = j + 1) by (apply add_exact; int_lia).
    assert (Hj1 : GoInt.add (GoInt.add j (countNodesBelow t)) 1 = j + 1).
    { rewrite countNodesBelow_zero.
      unfold GoInt.add at 2. rewrite Z.add_0_r, wrap_id; [exact Hj2|].
      int_lia. }
    rewrite visible_cons. cbn [at_loop]. rewrite Ht.
    destruct (isHidden st t).
    { apply IH; auto. lia. }
    destruct (Z.eqb_spec j i) as [->|Hne].
    { now rewrite Z.sub_diag. }
    assert (Hnth : forall l : list Node,
               nth_error (t :: l) (Z.to_nat (i - j))
               = nth_error l (Z.to_nat (i - (j + 1)))).
    { intro l. replace (Z.to_nat (i - j)) with (S (Z.to_nat (i - (j + 1))))
        by lia. reflexivity. }
    destruct (isCollapsible st t && isExpanded st t);
      cbn [visible flatten flatten_loop elems app];
      rewrite Hnth;
      destruct (isExpanded st t); cbn [at_loop];
      rewrite ?Hj1, ?Hj2; apply IH; auto; lia.
Qed.

(** X8.  On a sequence of nodes without children [at] is indexing: for
    every index from 0 on it returns the entry of [flatten] at that index,
    nil past the end. *)
Theorem at_indexes_leaves (st : States) (ns : Nodes) (i : Z) :
  leaves ns -> len ns <= GoInt.int_max -> 0 <= i ->
  Nodes_at st ns i = nth_error (elems (flatten st ns)) (Z.to_nat i).
Proof.
  intros Hl Hlen Hi. unfold Nodes_at.
  rewrite at_loop_leaves by (auto; lia).
  now rewrite Z.sub_0_r.
Qed.

Lemma at_indexes_leaves_witness :
  let ns := ConsNode Sample.a1 (ConsNode Sample.a2 (ConsNode Sample.b NoNodes)) in
  Nodes_at Sample.expanded ns 2
  = nth_error (elems (flatten Sample.expanded ns)) (Z.to_nat 2).
Proof.
  intro ns.
  apply (at_indexes_leaves Sample.expanded ns 2).
  - intros n [<-|[<-|[<-|[]]]]; reflexivity.
  - vm_compute. discriminate.
  - lia.
Defined.

(* ================================================================== *)
(** * More on the depth and the columns *)

Section Depth.

Context {provider : Provider}.

Lemma ancestor_height :
  forall k x r, ancestor k x = Some r -> (height r + k <= height x)%nat.
Proof.
  induction k as [|k IH]; intros x r; cbn [ancestor].
  - intros E; injection E as <-. lia.
  - destruct (Parent x) as [p|] eqn:Hp; [|discriminate].
    intros H. apply IH in H. pose proof (Parent_height x p Hp). lia.
Qed.

(** Every chain of parents ends at a root. *)
Lemma root_exists :
  forall h x, (height x < h)%nat ->
    exists k r, ancestor k x = Some r /\ Parent r = None.
Proof.
  induction h as [|h IH]; intros x Hx; [lia|].
  destruct (Parent x) as [p|] eqn:Hp.
  - pose proof (Parent_height x p Hp).
    destruct (IH p) as (k & r & Hk & Hr); [lia|].
    exists (S k), r. cbn [ancestor]. now rewrite Hp.
  - exists O, x. auto.
Qed.

Lemma ancestor_prefix :
  forall k K x r,
    ancestor K x = Some r -> (k <= K)%nat -> exists a, ancestor k x = Some a.
Proof.
  induction k as [|k IH]; intros K x r HK Hle; cbn [ancestor]; [eauto|].
  destruct K as [|K]; [lia|]. cbn [ancestor] in HK.
  destruct (Parent x) as [p|]; [|discriminate].
  apply (IH K p r); [assumption | lia].
Qed.

Lemma getDepth_loop_hops :
  forall k x r d fuel,
    ancestor k x = Some r -> Parent r = None -> (k < fuel)%nat ->
    0 <= d -> d + Z.of_nat k <= GoInt.int_max ->
    getDepth_loop fuel (Some x) d = d + Z.of_nat k.
Proof.
  induction k as [|k IH]; intros x r d fuel Hk Hr Hf Hd Hmax;
    (destruct fuel as [|fuel]; [lia|]); cbn [ancestor getDepth_loop] in *.
  - injection Hk as <-. rewrite Hr. lia.
  - destruct (Parent x) as [p|]; [|discriminate].
    rewrite add_exact by int_lia.
    rewrite (IH p r (d + 1) fuel); auto; lia.
Qed.

(** [getDepth] is the number of hops to the root. *)
Lemma getDepth_hops x k r :
  Z.of_nat (height x) <= GoInt.int_max ->
  ancestor k x = Some r -> Parent r = None ->
  getDepth (Some x) = Z.of_nat k.
Proof.
  intros Hh Hk Hr. pose proof (ancestor_height k x r Hk).
  unfold getDepth.
  rewrite (getDepth_loop_hops k x r 0 (S (height x))); auto; lia.
Qed.

(** X9.  [getDepth] counts the hops along [Parent()] up to a root: it is 0
    for nil and for a root, one more than the depth of the parent
    otherwise, and walking that many hops from the node ends on a node
    without parent.  (The chain is shorter than the largest [int].) *)
Theorem getDepth_counts_hops (x : Node) :
  Z.of_nat (height x) <= GoInt.int_max ->
  getDepth None = 0 /\
  (Parent x = None -> getDepth (Some x) = 0) /\
  (forall p, Parent x = Some p ->
             getDepth (Some x) = getDepth (Some p) + 1) /\
  exists r,
    ancestor (Z.to_nat (getDepth (Some x))) x = Some r /\ Parent r = None.
Proof.
  intros Hh. split; [reflexivity|]. split; [|split].
  - intros Hp. now apply (getDepth_hops x O x).
  - intros p Hp. pose proof (Parent_height x p Hp) as Hlt.
    destruct (root_exists (S (height p)) p) as (k & r & Hk & Hr); [lia|].
    rewrite (getDepth_hops p k r) by (auto; lia).
    rewrite (getDepth_hops x (S k) r); auto; [lia|].
    cbn [ancestor]. now rewrite Hp.
  - destruct (root_exists (S (height x)) x) as (k & r & Hk & Hr); [lia|].
    exists r. rewrite (getDepth_hops x k r) by auto.
    now rewrite Nat2Z.id.
Qed.

(** X10.  When a line is rendered the columns left of the node's own are
    decided by real ancestors: with [d] the depth of the node and
    [0 <= pos < d], the walk of [d - pos] hops stays inside the tree and
    the column is padding exactly when the ancestor it reaches is a
    [LastChild]. *)
Theorem padding_at_own_depth (st : States) (x : Node) (pos : Z) :
  Z.of_nat (height x) <= GoInt.int_max ->
  0 <= pos < getDepth (Some x) ->
  exists a,
    ancestor (Z.to_nat (getDepth (Some x) - pos)) x = Some a /\
    hasPaddingAtPos st (Some x) pos (getDepth (Some x)) = isLastNode st a.
Proof.
  intros Hh Hpos.
  destruct (root_exists (S (height x)) x) as (k & r & Hk & Hr); [lia|].
  pose proof (ancestor_height k x r Hk) as Hkh.
  rewrite (getDepth_hops x k r) in * by auto.
  destruct (ancestor_prefix (Z.to_nat (Z.of_nat k - pos)) k x r Hk)
    as [a Ha]; [lia|].
  exists a. split; [exact Ha|].
  unfold hasPaddingAtPos.
  destruct (Z.gtb_spec pos (Z.of_nat k)); [lia|].
  destruct (Z.eqb_spec pos (Z.of_nat k)); [lia|].
  rewrite sub_exact by int_lia.
  rewrite hasPaddingAtPos_loop_ancestor, Ha. reflexivity.
Qed.

End Depth.

Lemma getDepth_counts_hops_witness :
  getDepth None = 0 /\
  (Parent Sample.a1 = None -> getDepth (Some Sample.a1) = 0) /\
  (forall p, Parent Sample.a1 = Some p ->
             getDepth (Some Sample.a1) = getDepth (Some p) + 1) /\
  exists r,
    ancestor (Z.to_nat (getDepth (Some Sample.a1))) Sample.a1 = Some r /\
    Parent r = None.
Proof.
  apply (getDepth_counts_hops Sample.a1). vm_compute. discriminate.
Defined.

Lemma padding_at_own_depth_witness :
  exists a,
    ancestor (Z.to_nat (getDepth (Some Sample.a1) - 1)) Sample.a1 = Some a /\
    hasPaddingAtPos (snd Sample.started) (Some Sample.a1) 1
      (getDepth (Some Sample.a1))
    = isLastNode (snd Sample.started) a.
Proof.
  apply (padding_at_own_depth (snd Sample.started) Sample.a1 1).
  - vm_compute. discriminate.
  - vm_compute. split; [discriminate | reflexivity].
Defined.

(* ================================================================== *)
(** * More on the render pass *)

(** The hints bit by bit: [HasPreviousSibling] is bit 6, [Collapsible]
    bit 2 and [LastChild] bit 5. *)
Lemma hintsFor_testbit n i total k :
  N.testbit (hintsFor n i total) k =
  ((i >? 0) && (6 =? k)%N) || (hasChildren n && (2 =? k)%N)
  || ((i =? GoInt.sub total 1) && (5 =? k)%N).
Proof.
  unfold hintsFor, NodeNone.
  change NodeHasPreviousSibling with (2 ^ 6)%N.
  change NodeCollapsible with (2 ^ 2)%N.
  change NodeLastChild with (2 ^ 5)%N.
  destruct (i >? 0), (hasChildren n), (i =? GoInt.sub total 1);
    rewrite ?N.lor_spec, ?N.pow2_bits_eqb, ?N.bits_0;
    cbn [andb orb]; rewrite ?orb_false_r; reflexivity.
Qed.

Lemma lor_hints_other n i total s k :
  k <> 2%N -> k <> 5%N -> k <> 6%N ->
  N.testbit (N.lor s (hintsFor n i total)) k = N.testbit s k.
Proof.
  intros H2 H5 H6. rewrite N.lor_spec, hintsFor_testbit.
  destruct (N.eqb_spec 6 k); [congruence|].
  destruct (N.eqb_spec 2 k); [congruence|].
  destruct (N.eqb_spec 5 k); [congruence|].
  now rewrite !andb_false_r, orb_false_r.
Qed.

(** A pass keeps every bit other than the three hints, for every node. *)
Lemma applyHints_other total k :
  k <> 2%N -> k <> 5%N -> k <> 6%N ->
  forall ns i st c,
    N.testbit (State (applyHints total ns i st) c) k
    = N.testbit (State st c) k.
Proof.
  intros H2 H5 H6.
  induction ns as [|n rest IH]; intros i st c; cbn [applyHints];
    [reflexivity|].
  destruct (isHidden st n); [apply IH|].
  rewrite IH.
  apply (bit_frame (fun s => N.lor s (hintsFor n i total))).
  intro s. now apply lor_hints_other.
Qed.

(** A pass never clears a bit. *)
Lemma applyHints_mono total :
  forall ns i st c k,
    N.testbit (State st c) k = true ->
    N.testbit (State (applyHints total ns i st) c) k = true.
Proof.
  induction ns as [|n rest IH]; intros i st c k H; cbn [applyHints];
    [exact H|].
  destruct (isHidden st n); [now apply IH|].
  apply IH.
  destruct (Nat.eq_dec (nodeId c) (nodeId n)) as [E|E].
  - unfold State, SetState. rewrite E, Nat.eqb_refl, N.lor_spec.
    unfold State in H. rewrite E in H. now rewrite H.
  - now rewrite State_SetState_other.
Qed.

Lemma applyHints_hidden total ns i st c :
  isHidden (applyHints total ns i st) c = isHidden st c.
Proof.
  rewrite !isHidden_bit. apply applyHints_other; discriminate.
Qed.

(** After a pass every entry that is not hidden holds its hints. *)
Lemma applyHints_entries total :
  forall ns i st idx n k,
    0 <= i -> i + len ns <= GoInt.int_max ->
    nth_error (elems ns) idx = Some n -> isHidden st n = false ->
    N.testbit (hintsFor n (i + Z.of_nat idx) total) k = true ->
    N.testbit (State (applyHints total ns i st) n) k = true.
Proof.
  induction ns as [|t rest IH]; intros i st idx n k Hi Hlen Hnth Hvis Hk.
  { destruct idx; discriminate. }
  rewrite len_cons in Hlen.
  pose proof (Nat2Z.is_nonneg (length (elems rest))) as Hr0.
  fold (len rest) in Hr0.
  assert (Hadd : GoInt.add i 1 = i + 1) by (apply add_exact; int_lia).
  cbn [applyHints]. rewrite Hadd.
  destruct idx as [|idx]; cbn [elems nth_error] in Hnth.
  - injection Hnth as ->. rewrite Hvis. apply applyHints_mono.
    rewrite State_SetState_same, N.lor_spec.
    rewrite Z.add_0_r in Hk. rewrite Hk. apply orb_true_r.
  - replace (i + Z.of_nat (S idx)) with (i + 1 + Z.of_nat idx) in Hk by lia.
    destruct (isHidden st t); [apply (IH _ _ idx); auto; lia|].
    apply (IH _ _ idx); auto; [lia | lia |].
    rewrite isHidden_bit.
    rewrite (bit_frame (fun s => N.lor s (hintsFor t i total)))
      by (intro s; apply lor_hints_other; discriminate).
    now rewrite <- isHidden_bit.
Qed.

Lemma lastEntry_cons n rest :
  rest <> NoNodes -> lastEntry (ConsNode n rest) = lastEntry rest.
Proof. destruct rest; [congruence | reflexivity]. Qed.

(** Which nodes hold [LastChild] after a pass that ends at the end of the
    slice: those that held it, and the last entry if it is not hidden. *)
Lemma applyHints_LastChild total :
  forall ns i st c,
    0 <= i -> i + len ns = total -> total <= GoInt.int_max ->
    isLastNode (applyHints total ns i st) c =
    isLastNode st c
    || match lastEntry ns with
       | Some l => Nat.eqb (nodeId c) (nodeId l) && negb (isHidden st l)
       | None => false
       end.
Proof.
  induction ns as [|t rest IH]; intros i st c Hi Htot Hmax.
  { cbn. now rewrite orb_false_r. }
  rewrite len_cons in Htot.
  pose proof (Nat2Z.is_nonneg (length (elems rest))) as Hr0.
  fold (len rest) in Hr0.
  assert (Hadd : GoInt.add i 1 = i + 1) by (apply add_exact; int_lia).
  assert (Hsub : GoInt.sub total 1 = total - 1)
    by (apply sub_exact; int_lia).
  cbn [applyHints]. rewrite Hadd.
  destruct rest as [|t' rest'].
  - (* [t] is the last entry *)
    cbn [lastEntry applyHints].
    destruct (isHidden st t); cbn [negb];
      [now rewrite andb_false_r, orb_false_r|].
    rewrite andb_true_r, !isLastNode_bit.
    destruct (Nat.eqb_spec (nodeId c) (nodeId t)) as [E|E].
    + unfold State, SetState. rewrite E, Nat.eqb_refl.
      rewrite N.lor_spec, hintsFor_testbit, Hsub.
      unfold len in Htot; cbn in Htot.
      replace (i =? total - 1) with true by (symmetry; apply Z.eqb_eq; lia).
      cbn. now rewrite !orb_true_r.
    + rewrite State_SetState_other by assumption. now rewrite orb_false_r.
  - rewrite lastEntry_cons by discriminate.
    assert (Hnot : (i =? GoInt.sub total 1) = false).
    { rewrite Hsub. apply Z.eqb_neq. rewrite len_cons in Htot.
      pose proof (Nat2Z.is_nonneg (length (elems rest'))).
      unfold len in Htot. lia. }
    destruct (isHidden st t); [apply IH; lia|].
    rewrite IH by lia.
    set (st1 := SetState t (N.lor (State st t) (hintsFor t i total)) st).
    assert (H5 : forall x, isLastNode st1 x = isLastNode st x).
    { intro x. rewrite !isLastNode_bit.
      apply (bit_frame (fun s => N.lor s (hintsFor t i total))).
      intro s. rewrite N.lor_spec, hintsFor_testbit, Hnot.
      cbn. rewrite !andb_false_r. cbn. apply orb_false_r. }
    assert (H4 : forall x, isHidden st1 x = isHidden st x).
    { intro x. rewrite !isHidden_bit.
      apply (bit_frame (fun s => N.lor s (hintsFor t i total))).
      intro s. apply lor_hints_other; discriminate. }
    rewrite H5. destruct (lastEntry (ConsNode t' rest')); [|reflexivity].
    now rewrite H4.
Qed.

(** Stores that hold the same states give the same states after a pass. *)
Lemma applyHints_ext total :
  forall ns i st1 st2,
    (forall k, st1 k = st2 k) ->
    forall k, applyHints total ns i st1 k = applyHints total ns i st2 k.
Proof.
  induction ns as [|n rest IH]; intros i st1 st2 E k; cbn [applyHints];
    [apply E|].
  assert (Hh : isHidden st1 n = isHidden st2 n)
    by (unfold isHidden, State; now rewrite E).
  rewrite Hh.
  destruct (isHidden st2 n); apply IH; [exact E|].
  intro x. unfold SetState, State. now rewrite (E (nodeId n)), (E x).
Qed.

(** A pass over entries that hold their hints writes nothing new. *)
Lemma applyHints_absorb total :
  forall ns i st,
    0 <= i -> i + len ns <= GoInt.int_max ->
    (forall idx n k,
       nth_error (elems ns) idx = Some n -> isHidden st n = false ->
       N.testbit (hintsFor n (i + Z.of_nat idx) total) k = true ->
       N.testbit (State st n) k = true) ->
    forall k, applyHints total ns i st k = st k.
Proof.
  induction ns as [|t rest IH]; intros i st Hi Hlen Hheld k;
    cbn [applyHints]; [reflexivity|].
  rewrite len_cons in Hlen.
  pose proof (Nat2Z.is_nonneg (length (elems rest))) as Hr0.
  fold (len rest) in Hr0.
  assert (Hadd : GoInt.add i 1 = i + 1) by (apply add_exact; int_lia).
  rewrite Hadd.
  assert (Hrest : forall idx n k,
            nth_error (elems rest) idx = Some n -> isHidden st n = false ->
            N.testbit (hintsFor n (i + 1 + Z.of_nat idx) total) k = true ->
            N.testbit (State st n) k = true).
  { intros idx n b Hn Hv Hb. apply (Hheld (S idx) n b); auto.
    replace (i + Z.of_nat (S idx)) with (i + 1 + Z.of_nat idx) by lia.
    exact Hb. }
  destruct (isHidden st t) eqn:Ht; [apply IH; auto; lia|].
  assert (Hsame : forall x,
            SetState t (N.lor (State st t) (hintsFor t i total)) st x
            = st x).
  { intro x. unfold SetState.
    destruct (Nat.eqb_spec x (nodeId t)) as [->|]; [|reflexivity].
    apply N.bits_inj; intro b. rewrite N.lor_spec.
    destruct (N.testbit (hintsFor t i total) b) eqn:Hb;
      [|apply orb_false_r].
    rewrite orb_true_r. symmetry.
    apply (Hheld O t b); auto. now rewrite Z.add_0_r. }
  rewrite (applyHints_ext total rest (i + 1) _ st Hsame).
  apply IH; auto; lia.
Qed.

Section RenderPass.

Context {provider : Provider} {toolkit : Toolkit}.

(** The store [renderNodes] leaves is the one of [applyHints]: rendering a
    row writes nothing. *)
Lemma renderNodes_loop_store m total :
  forall ns i rendered st,
    exists rows,
      renderNodes_loop m total ns i rendered st
      = Some (rows, applyHints total ns i st).
Proof.
  induction ns as [|t rest IH]; intros i rendered st.
  - exists rendered. reflexivity.
  - cbn [renderNodes_loop applyHints]. unfold bind at 1, get.
    destruct (isHidden st t); [apply IH|].
    unfold bind, orState, modify.
    set (st1 := SetState t (N.lor (State st t) (hintsFor t i total)) st).
    destruct (renderNode_some m t st1) as [out ->].
    apply IH.
Qed.

(** X11.  A render pass over any slice does not panic, never clears a
    flag of any node, and leaves [Selected], [Collapsed] and [Hidden] of
    every node as they are: it only adds the three hints. *)
Theorem renderNodes_only_adds_hints (m : Model) (ns : Nodes) (st : States) :
  exists rows st',
    renderNodes m ns st = Some (rows, st') /\
    (forall c, isSelected st' c = isSelected st c /\
               isExpanded st' c = isExpanded st c /\
               isHidden st' c = isHidden st c) /\
    (forall c k, N.testbit (State st c) k = true ->
                 N.testbit (State st' c) k = true).
Proof.
  unfold renderNodes.
  destruct (renderNodes_loop_store m (len ns) ns 0 [] st) as [rows E].
  exists rows, (applyHints (len ns) ns 0 st).
  split; [exact E|]. split.
  - intro c. rewrite !isSelected_bit, !isExpanded_bit, !isHidden_bit.
    rewrite !applyHints_other by discriminate. auto.
  - intros c k. apply applyHints_mono.
Qed.

(** X12.  After a render pass over a slice, every entry that is not hidden
    is [Collapsible] if it has children, holds [HasPreviousSibling] unless
    it is the first entry, and holds [LastChild] if it is the last entry;
    and a node holds [LastChild] after the pass only if it held it before
    or is that last entry. *)
Theorem renderNodes_sets_hints (m : Model) (ns : Nodes) (st st' : States)
  (rows : list string) :
  len ns <= GoInt.int_max ->
  renderNodes m ns st = Some (rows, st') ->
  (forall idx n,
     nth_error (elems ns) idx = Some n -> isHidden st n = false ->
     (hasChildren n = true -> isCollapsible st' n = true) /\
     ((0 < idx)%nat -> hasPreviousSibling st' n = true) /\
     (Z.of_nat idx = len ns - 1 -> isLastNode st' n = true)) /\
  (forall c,
     isLastNode st' c =
     isLastNode st c
     || match lastEntry ns with
        | Some l => Nat.eqb (nodeId c) (nodeId l) && negb (isHidden st l)
        | None => false
        end).
Proof.
  intros Hlen Hr. unfold renderNodes in Hr.
  destruct (renderNodes_loop_store m (len ns) ns 0 [] st) as [rows' E].
  rewrite E in Hr. injection Hr as _ <-.
  split.
  - intros idx n Hn Hvis.
    assert (Hbit : forall k,
              N.testbit (hintsFor n (Z.of_nat idx) (len ns)) k = true ->
              N.testbit (State (applyHints (len ns) ns 0 st) n) k = true).
    { intros k Hk. apply (applyHints_entries (len ns) ns 0 st idx); auto;
        lia. }
    assert (Hidx : (idx < length (elems ns))%nat).
    { apply nth_error_Some. congruence. }
    assert (Hsub : GoInt.sub (len ns) 1 = len ns - 1).
    { apply sub_exact. unfold len in *. int_lia. }
    rewrite isCollapsible_bit, hasPreviousSibling_bit, isLastNode_bit.
    repeat split; intros H; apply Hbit; rewrite hintsFor_testbit.
    + rewrite H. cbn. now rewrite orb_true_r.
    + replace (Z.of_nat idx >? 0) with true
        by (symmetry; apply Z.gtb_lt; lia).
      reflexivity.
    + rewrite Hsub. replace (Z.of_nat idx =? len ns - 1) with true
        by (symmetry; apply Z.eqb_eq; lia).
      cbn. apply orb_true_r.
  - intro c. apply applyHints_LastChild; lia.
Qed.

(** X13.  A second render pass over the same slice changes no state: the
    hints are all there after the first. *)
Theorem renderNodes_twice (m m2 : Model) (ns : Nodes) (st st1 : States)
  (rows : list string) :
  len ns <= GoInt.int_max ->
  renderNodes m ns st = Some (rows, st1) ->
  exists rows2 st2,
    renderNodes m2 ns st1 = Some (rows2, st2) /\
    forall k, st2 k = st1 k.
Proof.
  intros Hlen Hr. unfold renderNodes in *.
  destruct (renderNodes_loop_store m (len ns) ns 0 [] st) as [rows' E].
  rewrite E in Hr. injection Hr as _ <-.
  destruct (renderNodes_loop_store m2 (len ns) ns 0 []
              (applyHints (len ns) ns 0 st)) as [rows2 E2].
  exists rows2. eexists. split; [exact E2|].
  apply applyHints_absorb; [lia | lia |].
  intros idx n k Hn Hvis Hk.
  rewrite applyHints_hidden in Hvis.
  apply (applyHints_entries (len ns) ns 0 st idx); auto; lia.
Qed.

End RenderPass.

(** The pass of [New] over the flat index of the sample tree, from the
    store in which only the root is selected. *)
Lemma renderNodes_sets_hints_witness :
  let m := emptyModel Sample.root Sample.forest in
  let st := SetState Sample.root NodeSelected Sample.collapsedA in
  let ns := flatten st Sample.forest in
  match renderNodes m ns st with
  | None => False
  | Some (_, st') =>
      (forall idx n,
         nth_error (elems ns) idx = Some n -> isHidden st n = false ->
         (hasChildren n = true -> isCollapsible st' n = true) /\
         ((0 < idx)%nat -> hasPreviousSibling st' n = true) /\
         (Z.of_nat idx = len ns - 1 -> isLastNode st' n = true)) /\
      (forall c,
         isLastNode st' c =
         isLastNode st c
         || match lastEntry ns with
            | Some l => Nat.eqb (nodeId c) (nodeId l) && negb (isHidden st l)
            | None => false
            end)
  end.
Proof.
  intros m st ns.
  destruct (renderNodes m ns st) as [[rows st']|] eqn:E.
  - apply (renderNodes_sets_hints m ns st st' rows).
    + vm_compute. discriminate.
    + exact E.
  - vm_compute in E. discriminate.
Defined.

Lemma renderNodes_twice_witness :
  let m := emptyModel Sample.root Sample.forest in
  let st := SetState Sample.root NodeSelected Sample.collapsedA in
  let ns := flatten st Sample.forest in
  match renderNodes m ns st with
  | None => False
  | Some (_, st1) =>
      exists rows2 st2,
        renderNodes m ns st1 = Some (rows2, st2) /\
        forall k, st2 k = st1 k
  end.
Proof.
  intros m st ns.
  destruct (renderNodes m ns st) as [[rows st1]|] eqn:E.
  - apply (renderNodes_twice m m ns st st1 rows).
    + vm_compute. discriminate.
    + exact E.
  - vm_compute in E. discriminate.
Defined.

(* ================================================================== *)
(** * More on the cursor and the selection *)

(** The store after [setCursor] went from node [p] to node [q]. *)
Definition reselect (st : States) (p q : Node) : States :=
  let st1 := SetState p (N.lxor (State st p) NodeSelected) st in
  SetState q (N.lor (State st1 q) NodeSelected) st1.

Lemma reselect_frame st p q c :
  isHidden (reselect st p q) c = isHidden st c /\
  isExpanded (reselect st p q) c = isExpanded st c /\
  isCollapsible (reselect st p q) c = isCollapsible st c /\
  isLastNode (reselect st p q) c = isLastNode st c /\
  hasPreviousSibling (reselect st p q) c = hasPreviousSibling st c.
Proof.
  unfold reselect.
  destruct (Selected_frame N.lxor st p lxor_Selected_other c)
    as (A1 & A2 & A3 & A4 & A5).
  destruct (Selected_frame N.lor
              (SetState p (N.lxor (State st p) NodeSelected) st) q
              lor_Selected_other c) as (B1 & B2 & B3 & B4 & B5).
  cbv zeta in *.
  rewrite B1, B2, B3, B4, B5. auto.
Qed.

(** Moving the selection from the only selected node leaves the target
    the only selected node. *)
Lemma reselect_selectedOnly st p q :
  selectedOnly st p -> selectedOnly (reselect st p q) q.
Proof.
  intros Hp c. unfold reselect.
  set (st1 := SetState p (N.lxor (State st p) NodeSelected) st).
  assert (H1 : isSelected st1 c = false).
  { rewrite isSelected_bit. unfold st1.
    destruct (Nat.eq_dec (nodeId c) (nodeId p)) as [E|E].
    - unfold State, SetState. rewrite E, Nat.eqb_refl, N.lxor_spec.
      assert (Hs : isSelected st p = true) by (now apply Hp).
      rewrite isSelected_bit in Hs. unfold State in Hs. now rewrite Hs.
    - rewrite State_SetState_other by assumption.
      rewrite <- isSelected_bit.
      destruct (isSelected st c) eqn:Hc; [|reflexivity].
      apply Hp in Hc. contradiction. }
  rewrite isSelected_bit.
  destruct (Nat.eq_dec (nodeId c) (nodeId q)) as [E|E].
  - unfold State at 1, SetState at 1. rewrite E, Nat.eqb_refl, N.lor_spec.
    cbn. rewrite orb_true_r. tauto.
  - rewrite State_SetState_other by assumption.
    rewrite <- isSelected_bit, H1. split; [discriminate | contradiction].
Qed.

Section Selection.

Context {provider : Provider} {toolkit : Toolkit}.

(** [setCursor] to another rendered line: the node under the old cursor is
    flipped, the node under the new one selected. *)
Lemma setCursor_exact (new : Z) (m : Model) (st : States) :
  cursorInRange m -> linesIndexed m st ->
  0 <= new <= visibleCount m - 1 -> new <> cursor m ->
  exists p q,
    currentNode m st = Some p /\
    Nodes_at st (nodes m) new = Some q /\
    setCursor new m st = Some ((withCursor new m, noop), reselect st p q).
Proof.
  intros Hcur [Hlines Hlen] Hnew Hne.
  unfold setCursor.
  destruct (Z.eqb_spec new (cursor m)) as [|_]; [contradiction|].
  unfold bind, get, currentNode.
  destruct (at_loop_top st (nodes m) (cursor m) 0) as [p Hp];
    [unfold cursorInRange in Hcur; lia
    | unfold cursorInRange in Hcur; lia | lia | ].
  destruct (at_loop_top st (nodes m) new 0) as [q Hq]; [lia | lia | lia |].
  exists p, q. unfold Nodes_at. rewrite Hp, Hq.
  split; [reflexivity|]. split; [reflexivity|].
  unfold xorState, modify. cbn [cursor withCursor nodes].
  set (st1 := SetState p (N.lxor (State st p) NodeSelected) st).
  assert (Hat : at_loop st1 (nodes m) new 0 = Some q).
  { rewrite <- Hq. apply at_loop_ext; intro c;
      destruct (Selected_frame N.lxor st p lxor_Selected_other c)
        as (A1 & A2 & _); assumption. }
  rewrite Hat. reflexivity.
Qed.

(** Where a move takes the cursor. *)
Definition target (mv : Move) (m : Model) : Z :=
  match mv with
  | Up n => Z.max (cursor m - n) 0
  | Down n => Z.min (cursor m + n) (visibleCount m - 1)
  end.

(** A move, in full: the model it returns and the store it leaves. *)
Lemma move_exact (mv : Move) (m : Model) (st : States) :
  cursorInRange m -> linesIndexed m st -> fits mv m ->
  exists m' st',
    move mv m st = Some ((m', noop), st') /\
    cursor m' = target mv m /\
    nodes m' = nodes m /\ visibleCount m' = visibleCount m /\
    focus m' = focus m /\
    (st' = st /\ cursor m' = cursor m \/
     exists p q, currentNode m st = Some p /\
                 Nodes_at st (nodes m) (target mv m) = Some q /\
                 st' = reselect st p q).
Proof.
  intros Hcur Hlines Hfit.
  pose proof (visibleCount_range m st Hcur Hlines) as Hvc.
  pose proof Hcur as Hcur'. unfold cursorInRange in Hcur'.
  assert (Hgo : forall (b : bool) (v : viewport.Model) (new : Z),
            viewport.lines v = viewport.lines (view m) ->
            0 <= new <= visibleCount m - 1 ->
            let m1 := if b then withView v m else m in
            exists m' st',
              setCursor new m1 st = Some ((m', noop), st') /\
              cursor m' = new /\ nodes m' = nodes m /\
              visibleCount m' = visibleCount m /\ focus m' = focus m /\
              (st' = st /\ cursor m' = cursor m \/
               exists p q, currentNode m st = Some p /\
                           Nodes_at st (nodes m) new = Some q /\
                           st' = reselect st p q)).
  { intros b v new Hv Hnew m1.
    destruct (scrolled_same_lines m v b Hv) as (Hn & Hc & Hvm).
    fold m1 in Hn, Hc, Hvm.
    assert (Hf : focus m1 = focus m) by (unfold m1; now destruct b).
    assert (Hcur1 : cursorInRange m1)
      by (unfold cursorInRange; rewrite Hc, Hvm; exact Hcur').
    assert (Hlines1 : linesIndexed m1 st)
      by (now apply (linesIndexed_ext m m1 st st)).
    destruct (Z.eq_dec new (cursor m1)) as [E|E].
    - exists m1, st. unfold setCursor. rewrite E, Z.eqb_refl.
      split; [reflexivity|]. split; [reflexivity|].
      split; [exact Hn|]. split; [exact Hvm|]. split; [exact Hf|].
      left. split; [reflexivity | exact Hc].
    - destruct (setCursor_exact new m1 st Hcur1 Hlines1)
        as (p & q & Hp & Hq & Hset); [rewrite Hvm; lia | exact E |].
      exists (withCursor new m1), (reselect st p q).
      split; [exact Hset|]. cbn [cursor nodes focus withCursor].
      change (visibleCount (withCursor new m1)) with (visibleCount m1).
      split; [reflexivity|].
      split; [exact Hn|]. split; [exact Hvm|]. split; [exact Hf|].
      right. exists p, q.
      unfold currentNode in *. rewrite Hn, Hc in Hp. rewrite Hn in Hq.
      auto. }
  destruct mv as [n|n]; cbn [move fits target] in *.
  - unfold MoveUp.
    destruct (Z.eqb_spec (cursor m) 0) as [E|E].
    { exists m, st. split; [reflexivity|]. split; [lia|].
      repeat (split; [reflexivity|]). left. auto. }
    cbn zeta. rewrite sub_exact by int_lia.
    unfold viewport.VisibleLineIndices.
    match goal with
    | |- context [if ?b then withView ?v m else m] =>
        apply (Hgo b v (Z.max (cursor m - n) 0) eq_refl)
    end. lia.
  - unfold MoveDown. fold (visibleCount m).
    rewrite sub_exact by int_lia.
    destruct (Z.eqb_spec (cursor m) (visibleCount m - 1)) as [E|E].
    { exists m, st. split; [reflexivity|]. split; [lia|].
      repeat (split; [reflexivity|]). left. auto. }
    cbn zeta. rewrite add_exact by int_lia.
    unfold viewport.VisibleLineIndices.
    match goal with
    | |- context [if ?b then withView ?v m else m] =>
        apply (Hgo b v (Z.min (cursor m + n) (visibleCount m - 1)) eq_refl)
    end. lia.
Qed.

End Selection.

Section Moves.

Context {provider : Provider} {toolkit : Toolkit}.

(** X14.  A move from a well-formed model puts the cursor exactly at
    [max(cursor - n, 0)] or [min(cursor + n, last)], keeps the flat index,
    the lines and the focus, and writes no flag but [Selected]. *)
Theorem move_reaches_target (mv : Move) (m : Model) (st : States) :
  cursorInRange m -> linesIndexed m st -> fits mv m ->
  exists m' st',
    move mv m st = Some ((m', noop), st') /\
    cursor m' = target mv m /\
    nodes m' = nodes m /\ visibleCount m' = visibleCount m /\
    focus m' = focus m /\
    forall c,
      isHidden st' c = isHidden st c /\
      isExpanded st' c = isExpanded st c /\
      isCollapsible st' c = isCollapsible st c /\
      isLastNode st' c = isLastNode st c /\
      hasPreviousSibling st' c = hasPreviousSibling st c.
Proof.
  intros Hcur Hlines Hfit.
  destruct (move_exact mv m st Hcur Hlines Hfit)
    as (m' & st' & Hmove & Hc & Hn & Hv & Hf & Hst).
  exists m', st'. repeat (split; [assumption|]).
  intro c. destruct Hst as [[-> _] | (p & q & _ & _ & ->)]; [auto|].
  apply reselect_frame.
Qed.

(** X15.  [GotoTop] puts the cursor on line 0 and [GotoBottom] on the last
    line, from wherever a well-formed model has it. *)
Theorem goto_reaches_the_ends (m : Model) (st : States) :
  cursorInRange m -> linesIndexed m st ->
  cursor m + visibleCount m <= GoInt.int_max ->
  (exists m' st', GotoTop m st = Some ((m', noop), st') /\ cursor m' = 0) /\
  (exists m' st',
     GotoBottom m st = Some ((m', noop), st') /\
     cursor m' = visibleCount m - 1).
Proof.
  intros Hcur Hlines Hmax.
  pose proof (visibleCount_range m st Hcur Hlines) as Hvc.
  pose proof Hcur as Hcur'. unfold cursorInRange in Hcur'.
  split.
  - destruct (move_exact (Up (visibleCount m)) m st Hcur Hlines)
      as (m' & st' & Hmove & Hc & _); [cbn [fits]; lia|].
    exists m', st'. split; [exact Hmove|]. rewrite Hc. cbn [target]. lia.
  - destruct (move_exact (Down (visibleCount m)) m st Hcur Hlines)
      as (m' & st' & Hmove & Hc & _); [cbn [fits]; lia|].
    exists m', st'. split; [exact Hmove|]. rewrite Hc. cbn [target]. lia.
Qed.

(** X16.  A move down that is not clamped is undone by the same move up:
    [MoveDown(n)] followed by [MoveUp(n)] brings the cursor back. *)
Theorem move_down_then_up (n : Z) (m : Model) (st : States) :
  cursorInRange m -> linesIndexed m st ->
  0 <= n -> cursor m + n <= visibleCount m - 1 ->
  exists m1 st1 m2 st2,
    MoveDown n m st = Some ((m1, noop), st1) /\
    MoveUp n m1 st1 = Some ((m2, noop), st2) /\
    cursor m1 = cursor m + n /\ cursor m2 = cursor m.
Proof.
  intros Hcur Hlines Hn Hroom.
  pose proof (visibleCount_range m st Hcur Hlines) as Hvc.
  pose proof Hcur as Hcur'. unfold cursorInRange in Hcur'.
  assert (Hfit : fits (Down n) m) by (cbn [fits]; lia).
  destruct (move_exact (Down n) m st Hcur Hlines Hfit)
    as (m1 & st1 & Hmove & Hc & _).
  destruct (move_spec (Down n) m st Hcur Hlines Hfit)
    as (m1' & st1' & Hmove' & Hcur1 & Hlines1 & Hv1).
  rewrite Hmove in Hmove'. injection Hmove' as <- <-.
  cbn [target] in Hc.
  destruct (move_exact (Up n) m1 st1 Hcur1 Hlines1)
    as (m2 & st2 & Hmove2 & Hc2 & _); [cbn [fits]; lia|].
  exists m1, st1, m2, st2. cbn [move] in *.
  split; [exact Hmove|]. split; [exact Hmove2|].
  cbn [target] in Hc2. lia.
Qed.

(** One move keeps the selection on the node under the cursor. *)
Lemma move_keeps_selection (mv : Move) (m : Model) (st : States) (p : Node) :
  cursorInRange m -> linesIndexed m st -> fits mv m ->
  currentNode m st = Some p -> selectedOnly st p ->
  exists m' st' q,
    move mv m st = Some ((m', noop), st') /\
    currentNode m' st' = Some q /\ selectedOnly st' q.
Proof.
  intros Hcur Hlines Hfit Hp Hsel.
  destruct (move_exact mv m st Hcur Hlines Hfit)
    as (m' & st' & Hmove & Hc & Hn & Hv & Hf & Hst).
  destruct Hst as [[-> Hsame] | (p' & q & Hp' & Hq & ->)].
  - exists m', st, p. split; [exact Hmove|]. split; [|exact Hsel].
    unfold currentNode in *. now rewrite Hn, Hsame.
  - rewrite Hp in Hp'. injection Hp' as <-.
    exists m', (reselect st p q), q. split; [exact Hmove|]. split.
    + unfold currentNode, Nodes_at in *. rewrite Hn, Hc, <- Hq.
      apply at_loop_ext; intro c;
        destruct (reselect_frame st p q c) as (A1 & A2 & _); assumption.
    + now apply reselect_selectedOnly.
Qed.

(** X17.  From a well-formed model in which the node under the cursor is
    the only selected one, every admissible sequence of moves ends with the
    node under the cursor the only selected one. *)
Theorem moves_keep_single_selection (l : list Move) :
  forall (m : Model) (st : States) (p : Node),
    cursorInRange m -> linesIndexed m st -> admissible l m st ->
    currentNode m st = Some p -> selectedOnly st p ->
    exists m' st' q,
      moves l m st = Some (m', st') /\
      currentNode m' st' = Some q /\ selectedOnly st' q.
Proof.
  induction l as [|mv l IH]; intros m st p Hcur Hlines Hadm Hp Hsel.
  - exists m, st, p. auto.
  - destruct Hadm as [Hfit Hrest].
    destruct (move_keeps_selection mv m st p Hcur Hlines Hfit Hp Hsel)
      as (m1 & st1 & q & Hmove & Hq & Hsel1).
    destruct (move_spec mv m st Hcur Hlines Hfit)
      as (m1' & st1' & Hmove' & Hcur1 & Hlines1 & _).
    rewrite Hmove in Hmove'. injection Hmove' as <- <-.
    rewrite Hmove in Hrest. cbn [fst] in Hrest.
    destruct (IH m1 st1 q Hcur1 Hlines1 Hrest Hq Hsel1)
      as (m' & st' & q' & Hmoves & Hq' & Hsel').
    exists m', st', q'. split; [|auto].
    cbn [moves]. unfold bind. rewrite Hmove. exact Hmoves.
Qed.

(** X18.  [Blur] does not move the cursor and flips [Selected] of the
    node under it, nothing else: the new state of that node is the old one
    with the [Selected] bit flipped, every other bit of every state and
    every other node are as they were.  It deselects a selected node, a
    second [Blur] selects it again, and after two the store is as it
    was. *)
Theorem Blur_flips_the_selection (m : Model) (st : States) (p : Node) :
  currentNode m st = Some p ->
  exists st1 st2,
    Blur m st = Some (withFocus false m, st1) /\
    Blur (withFocus false m) st1 = Some (withFocus false m, st2) /\
    isSelected st1 p = negb (isSelected st p) /\
    State st1 p = N.lxor (State st p) NodeSelected /\
    (forall c k, k <> 1%N ->
                 N.testbit (State st1 c) k = N.testbit (State st c) k) /\
    (forall c, nodeId c <> nodeId p -> State st1 c = State st c) /\
    (forall k, st2 k = st k).
Proof.
  intros Hp.
  set (st1 := SetState p (N.lxor (State st p) NodeSelected) st).
  assert (Hp1 : currentNode (withFocus false m) st1 = Some p).
  { unfold currentNode, Nodes_at in *. cbn [nodes cursor withFocus].
    rewrite <- Hp. apply at_loop_ext; intro c;
      destruct (Selected_frame N.lxor st p lxor_Selected_other c)
        as (A1 & A2 & _); assumption. }
  exists st1, (SetState p (N.lxor (State st1 p) NodeSelected) st1).
  split; [|split; [|split; [|split; [|split; [|split]]]]].
  - unfold Blur, bind, get. now rewrite Hp.
  - unfold Blur, bind, get. now rewrite Hp1.
  - rewrite !isSelected_bit. unfold st1.
    rewrite State_SetState_same, N.lxor_spec. cbn. apply xorb_true_r.
  - unfold st1. apply State_SetState_same.
  - intros c k Hk. unfold st1.
    destruct (Nat.eq_dec (nodeId c) (nodeId p)) as [E|E].
    + unfold State in *. rewrite E. unfold SetState.
      rewrite Nat.eqb_refl, N.lxor_spec.
      change NodeSelected with (2 ^ 1)%N. rewrite N.pow2_bits_eqb.
      destruct (N.eqb_spec 1 k) as [<-|_]; [congruence|].
      apply xorb_false_r.
    + now rewrite State_SetState_other.
  - intros c Hc. unfold st1. now apply State_SetState_other.
  - intro k. unfold SetState at 1.
    destruct (Nat.eqb_spec k (nodeId p)) as [->|Hk].
    + unfold st1. rewrite State_SetState_same.
      rewrite N.lxor_assoc, N.lxor_nilpotent. apply N.lxor_0_r.
    + unfold st1, SetState.
      destruct (Nat.eqb_spec k (nodeId p)); [contradiction | reflexivity].
Qed.

End Moves.

Lemma selectedOnly_started : selectedOnly (snd Sample.started) Sample.root.
Proof.
  intros [k ch]. unfold isSelected, State. cbn [nodeId].
  destruct k as [|[|[|[|[|k]]]]]; vm_compute; split; intro H;
    try reflexivity; discriminate.
Qed.

Lemma move_reaches_target_witness :
  let m := fst Sample.started in
  let st := snd Sample.started in
  exists m' st',
    move (Down 2) m st = Some ((m', noop), st') /\
    cursor m' = target (Down 2) m /\
    nodes m' = nodes m /\ visibleCount m' = visibleCount m /\
    focus m' = focus m /\
    forall c,
      isHidden st' c = isHidden st c /\
      isExpanded st' c = isExpanded st c /\
      isCollapsible st' c = isCollapsible st c /\
      isLastNode st' c = isLastNode st c /\
      hasPreviousSibling st' c = hasPreviousSibling st c.
Proof.
  intros m st.
  apply (move_reaches_target (Down 2) m st).
  - unfold cursorInRange. vm_compute. intuition discriminate.
  - unfold linesIndexed. vm_compute. intuition discriminate.
  - vm_compute. intuition discriminate.
Defined.

Lemma goto_reaches_the_ends_witness :
  let m := fst Sample.started in
  let st := snd Sample.started in
  (exists m' st', GotoTop m st = Some ((m', noop), st') /\ cursor m' = 0) /\
  (exists m' st',
     GotoBottom m st = Some ((m', noop), st') /\
     cursor m' = visibleCount m - 1).
Proof.
  intros m st.
  apply (goto_reaches_the_ends m st).
  - unfold cursorInRange. vm_compute. intuition discriminate.
  - unfold linesIndexed. vm_compute. intuition discriminate.
  - vm_compute. discriminate.
Defined.

Lemma move_down_then_up_witness :
  let m := fst Sample.started in
  let st := snd Sample.started in
  exists m1 st1 m2 st2,
    MoveDown 3 m st = Some ((m1, noop), st1) /\
    MoveUp 3 m1 st1 = Some ((m2, noop), st2) /\
    cursor m1 = cursor m + 3 /\ cursor m2 = cursor m.
Proof.
  intros m st.
  apply (move_down_then_up 3 m st).
  - unfold cursorInRange. vm_compute. intuition discriminate.
  - unfold linesIndexed. vm_compute. intuition discriminate.
  - lia.
  - vm_compute. discriminate.
Defined.

Lemma moves_keep_single_selection_witness :
  let m := fst Sample.started in
  let st := snd Sample.started in
  exists m' st' q,
    moves [Down 2; Up 9; Down 1] m st = Some (m', st') /\
    currentNode m' st' = Some q /\ selectedOnly st' q.
Proof.
  intros m st.
  apply (moves_keep_single_selection [Down 2; Up 9; Down 1] m st Sample.root).
  - unfold cursorInRange. vm_compute. intuition discriminate.
  - unfold linesIndexed. vm_compute. intuition discriminate.
  - vm_compute. intuition discriminate.
  - vm_compute. reflexivity.
  - exact selectedOnly_started.
Defined.

Lemma Blur_flips_the_selection_witness :
  let m := fst Sample.started in
  let st := snd Sample.started in
  exists st1 st2,
    Blur m st = Some (withFocus false m, st1) /\
    Blur (withFocus false m) st1 = Some (withFocus false m, st2) /\
    isSelected st1 Sample.root = negb (isSelected st Sample.root) /\
    State st1 Sample.root = N.lxor (State st Sample.root) NodeSelected /\
    (forall c k, k <> 1%N ->
                 N.testbit (State st1 c) k = N.testbit (State st c) k) /\
    (forall c, nodeId c <> nodeId Sample.root -> State st1 c = State st c) /\
    (forall k, st2 k = st k).
Proof.
  intros m st.
  apply (Blur_flips_the_selection m st Sample.root).
  vm_compute. reflexivity.
Defined.

(* ================================================================== *)
(** * More on construction and on messages *)

Lemma elems_head ns x l :
  elems ns = x :: l -> exists rest, ns = ConsNode x rest.
Proof.
  destruct ns as [|n rest]; cbn; [discriminate|].
  intros E; injection E as -> _. eauto.
Qed.

(** What models share when only the cursor, the focus and the viewport
    may differ. *)
Definition sameIndex {toolkit : Toolkit} (m m' : Model) : Prop :=
  root m' = root m /\ nodes m' = nodes m /\ keyMap m' = keyMap m /\
  styles m' = styles m /\ symbols m' = symbols m.

(** The flags that decide the visible order are the same in two stores. *)
Definition sameOrder (st st' : States) : Prop :=
  forall c, isHidden st' c = isHidden st c /\
            isExpanded st' c = isExpanded st c /\
            isCollapsible st' c = isCollapsible st c.

Lemma sameOrder_refl st : sameOrder st st.
Proof. intro c. auto. Qed.

Lemma sameOrder_trans st1 st2 st3 :
  sameOrder st1 st2 -> sameOrder st2 st3 -> sameOrder st1 st3.
Proof.
  intros H12 H23 c. destruct (H12 c) as (A1 & A2 & A3).
  destruct (H23 c) as (B1 & B2 & B3). rewrite B1, B2, B3. auto.
Qed.

Lemma sameOrder_reselect st p q : sameOrder st (reselect st p q).
Proof.
  intro c. destruct (reselect_frame st p q c) as (A1 & A2 & A3 & _). auto.
Qed.

Section Messages.

Context {provider : Provider} {toolkit : Toolkit}.

(** X19.  [New] panics on an empty sequence.  Otherwise it returns a
    blurred model with the cursor on 0 whose flat index is [flatten] of the
    input with the first root selected; the first root holds [Selected]
    afterwards, no [Hidden] or [Collapsed] flag has changed, and if the
    first root is not hidden it is the node under the cursor, the only
    selected one when none was selected before. *)
Theorem New_initial_state (r : Node) (rest : Nodes) (st : States) :
  New NoNodes st = None /\
  exists m st',
    New (ConsNode r rest) st = Some (m, st') /\
    root m = r /\ cursor m = 0 /\ focus m = false /\
    nodes m =
      flatten (SetState r (N.lor (State st r) NodeSelected) st)
        (ConsNode r rest) /\
    isSelected st' r = true /\
    (forall c, isHidden st' c = isHidden st c /\
               isExpanded st' c = isExpanded st c) /\
    (isHidden st r = false ->
     currentNode m st' = Some r /\
     ((forall c, isSelected st c = false) -> selectedOnly st' r)).
Proof.
  split; [reflexivity|].
  unfold New, bind, orState, modify, get, renderAllNodes, renderNodes,
    AllNodes.
  cbn [nodes].
  set (st1 := SetState r (N.lor (State st r) NodeSelected) st).
  set (flat := flatten st1 (ConsNode r rest)).
  match goal with
  | |- context [renderNodes_loop ?m0 ?total flat 0 [] st1] =>
      destruct (renderNodes_loop_store m0 total flat 0 [] st1) as [rows E];
      rewrite E
  end.
  unfold ret. eexists; eexists. split; [reflexivity|].
  cbn [root cursor focus nodes withView].
  repeat (split; [reflexivity|]).
  set (st' := applyHints (len flat) flat 0 st1).
  assert (Hsel : forall c, isSelected st' c = isSelected st1 c).
  { intro c. rewrite !isSelected_bit. apply applyHints_other; discriminate. }
  assert (Hfr : forall c, isHidden st' c = isHidden st c /\
                          isExpanded st' c = isExpanded st c).
  { intro c.
    destruct (Selected_frame N.lor st r lor_Selected_other c)
      as (A1 & A2 & _). fold st1 in A1, A2.
    rewrite isHidden_bit, isExpanded_bit. unfold st'.
    rewrite !applyHints_other by discriminate.
    rewrite <- isHidden_bit, <- isExpanded_bit. auto. }
  assert (Hr1 : isSelected st1 r = true).
  { rewrite isSelected_bit. unfold st1.
    rewrite State_SetState_same, N.lor_spec. apply orb_true_r. }
  split; [now rewrite Hsel|]. split; [exact Hfr|].
  intros Hvis. split.
  - assert (Hvis1 : isHidden st1 r = false).
    { destruct (Selected_frame N.lor st r lor_Selected_other r)
        as (A1 & _). fold st1 in A1. now rewrite A1. }
    destruct (elems_head flat r
                ((if isCollapsible st1 r && isExpanded st1 r
                  then visible st1 (Children r) else [])
                 ++ visible st1 rest)) as [flat' Hflat].
    { change (elems flat) with (visible st1 (ConsNode r rest)).
      now rewrite visible_cons, Hvis1. }
    unfold currentNode, Nodes_at. cbn [nodes cursor withView].
    rewrite Hflat. cbn [at_loop].
    destruct (Hfr r) as [Hh _]. now rewrite Hh, Hvis.
  - intros Hnone c. rewrite Hsel, isSelected_bit. unfold st1.
    destruct (Nat.eq_dec (nodeId c) (nodeId r)) as [Ec|Ec].
    + unfold State, SetState. rewrite Ec, Nat.eqb_refl, N.lor_spec.
      cbn. rewrite orb_true_r. tauto.
    + rewrite State_SetState_other by assumption.
      rewrite <- isSelected_bit, Hnone.
      split; [discriminate | contradiction].
Qed.

Lemma sameIndex_refl m : sameIndex m m.
Proof. unfold sameIndex. auto. Qed.

Lemma sameIndex_withView v m : sameIndex m (withView v m).
Proof. unfold sameIndex. auto. Qed.

Lemma sameIndex_trans m1 m2 m3 :
  sameIndex m1 m2 -> sameIndex m2 m3 -> sameIndex m1 m3.
Proof.
  unfold sameIndex. intros (A1 & A2 & A3 & A4 & A5) (B1 & B2 & B3 & B4 & B5).
  rewrite B1, B2, B3, B4, B5. auto.
Qed.

(** [setCursor], whatever the index: the model differs by its cursor, and
    the store by [Selected] flags. *)
Lemma setCursor_frame new m st r st' :
  setCursor new m st = Some (r, st') ->
  sameIndex m (fst r) /\ view (fst r) = view m /\ sameOrder st st'.
Proof.
  unfold setCursor.
  destruct (new =? cursor m).
  { intros E; injection E as <- <-.
    split; [apply sameIndex_refl|]. split; [reflexivity|].
    apply sameOrder_refl. }
  unfold bind, get.
  destruct (currentNode m st) as [p|]; [|discriminate].
  unfold xorState, modify.
  set (st1 := SetState p (N.lxor (State st p) NodeSelected) st).
  destruct (currentNode (withCursor new m) st1) as [q|]; [|discriminate].
  unfold orState, modify, ret. intros E; injection E as <- <-.
  split; [unfold sameIndex; auto|]. split; [reflexivity|].
  apply (sameOrder_reselect st p q).
Qed.

Lemma move_frame (mv : Move) m st r st' :
  move mv m st = Some (r, st') ->
  sameIndex m (fst r) /\ sameOrder st st'.
Proof.
  assert (Hgo : forall (b : bool) v new,
            setCursor new (if b then withView v m else m) st
            = Some (r, st') ->
            sameIndex m (fst r) /\ sameOrder st st').
  { intros b v new H. apply setCursor_frame in H.
    destruct H as (H1 & _ & H3). split; [|exact H3].
    apply (sameIndex_trans m (if b then withView v m else m)); [|exact H1].
    destruct b; [apply sameIndex_withView | apply sameIndex_refl]. }
  destruct mv as [n|n]; cbn [move].
  - unfold MoveUp. destruct (cursor m =? 0).
    { intros E; injection E as <- <-.
      split; [apply sameIndex_refl | apply sameOrder_refl]. }
    cbn zeta. unfold viewport.VisibleLineIndices. apply Hgo.
  - unfold MoveDown.
    destruct (cursor m =? GoInt.sub (viewport.TotalLineCount (view m)) 1).
    { intros E; injection E as <- <-.
      split; [apply sameIndex_refl | apply sameOrder_refl]. }
    cbn zeta. unfold viewport.VisibleLineIndices. apply Hgo.
Qed.

Lemma navigate_frame key m st r st' :
  navigate key m st = Some (r, st') ->
  sameIndex m (fst r) /\ sameOrder st st'.
Proof.
  unfold navigate, GotoTop, GotoBottom.
  repeat match goal with
         | |- context [if key_Matches ?k ?b then _ else _] =>
             destruct (key_Matches k b)
         end;
    try (apply (move_frame (Up _))); try (apply (move_frame (Down _))).
  intros E; injection E as <- <-.
  split; [apply sameIndex_refl | apply sameOrder_refl].
Qed.

Lemma renderNode_store m n st s st' :
  renderNode m n st = Some (s, st') -> st' = st.
Proof.
  unfold renderNode. destruct n as [x|]; [|discriminate].
  destruct (renderSymbolsForSingleLineNode m st x); [|discriminate].
  intros E; now injection E.
Qed.

(** X20.  Whatever the message, [Update] keeps the flat index, the root
    and the configuration of the model, and the [Hidden] flag of every
    node; and a message other than the expand key leaves [Collapsed] and
    [Collapsible] of every node alone too, so that [flatten] of any forest
    is what it was. *)
Theorem Update_keeps_the_index (msg : Msg) (m m' : Model) (cmd : Cmd)
  (st st' : States) :
  Update msg m st = Some ((m', cmd), st') ->
  sameIndex m m' /\
  (forall c, isHidden st' c = isHidden st c) /\
  (match msg with
   | KeyMsg key => key_Matches key (KeyMap.Expand (keyMap m)) = false
   | _ => True
   end ->
   (forall c, isExpanded st' c = isExpanded st c /\
              isCollapsible st' c = isCollapsible st c) /\
   forall ns, flatten st' ns = flatten st ns).
Proof.
  unfold Update.
  destruct (focus m); cbn [negb].
  2:{ intros E; injection E as <- _ <-.
      split; [apply sameIndex_refl|]. split; [reflexivity|]. auto. }
  destruct msg as [w h|key|].
  - intros E; injection E as <- _ <-.
    split; [unfold sameIndex; auto|]. split; [reflexivity|]. auto.
  - destruct (key_Matches key (KeyMap.Expand (keyMap m))) eqn:Hkey.
    + unfold bind at 1. unfold ToggleExpand, bind at 1, get.
      destruct (currentNode m st) as [n|]; [|discriminate].
      assert (Hrender : forall st0,
                (forall c, isHidden st0 c = isHidden st c) ->
                bind (renderAllNodes m)
                  (fun rows =>
                     ret (withView (viewport.SetContent rows (view m)) m,
                          noop)) st0 = Some (m', cmd, st') ->
                sameIndex m m' /\
                (forall c, isHidden st' c = isHidden st c)).
      { intros st0 H0. unfold bind, renderAllNodes, renderNodes, AllNodes.
        destruct (renderNodes_loop_store m (len (nodes m)) (nodes m) 0 []
                    st0) as [rows E].
        rewrite E. unfold ret. intros R; injection R as <- _ <-.
        split; [unfold sameIndex; auto|].
        intro c. now rewrite applyHints_hidden. }
      destruct (isCollapsible st n); cbn [negb].
      * intros H.
        destruct (Hrender (flipCollapsed st n)) as [H1 H2]; [ | exact H | ].
        { intro c. now destruct (flipCollapsed_flags st n c). }
        split; [exact H1|]. split; [exact H2 | discriminate].
      * intros H.
        destruct (Hrender st (fun c => eq_refl) H) as [H1 H2].
        split; [exact H1|]. split; [exact H2 | discriminate].
    + unfold bind at 1.
      destruct (navigate key m st) as [[[m1 c1] st1]|] eqn:Hnav;
        [|discriminate].
      apply navigate_frame in Hnav. cbn [fst] in Hnav.
      destruct Hnav as [Hidx Hord].
      unfold bind at 1, get. unfold bind at 1.
      destruct (renderNode m1 (Nodes_at st1 (nodes m1) (cursor m)) st1)
        as [[old st2]|] eqn:Hold; [|discriminate].
      apply renderNode_store in Hold. subst st2.
      unfold bind at 1, get. unfold bind at 1.
      match goal with
      | |- context [renderNode ?mm ?nn st1] =>
          destruct (renderNode mm nn st1) as [[new st3]|] eqn:Hnew;
          [|discriminate]
      end.
      apply renderNode_store in Hnew. subst st3.
      unfold ret. intros R; injection R as <- _ <-.
      split.
      { apply (sameIndex_trans m m1); [exact Hidx|].
        unfold sameIndex. auto. }
      split; [intro c; now destruct (Hord c)|].
      intros _. split.
      { intro c. destruct (Hord c) as (A1 & A2 & A3). auto. }
      intros ns. apply flatten_loop_ext; intro c;
        destruct (Hord c) as (A1 & A2 & A3); assumption.
  - intros E; injection E as <- _ <-.
    split; [apply sameIndex_refl|]. split; [reflexivity|]. auto.
Qed.

End Messages.

(** The focused sample model receives the key that moves down. *)
Lemma Update_keeps_the_index_witness :
  let m := withFocus true (fst Sample.started) in
  let st := snd Sample.started in
  match Update (KeyMsg "down") m st with
  | None => False
  | Some ((m', _), st') =>
      sameIndex m m' /\
      (forall c, isHidden st' c = isHidden st c) /\
      (key_Matches "down" (KeyMap.Expand (keyMap m)) = false ->
       (forall c, isExpanded st' c = isExpanded st c /\
                  isCollapsible st' c = isCollapsible st c) /\
       forall ns, flatten st' ns = flatten st ns)
  end.
Proof.
  intros m st.
  destruct (Update (KeyMsg "down") m st) as [[[m' cmd] st']|] eqn:E.
  - exact (Update_keeps_the_index (KeyMsg "down") m m' cmd st st' E).
  - vm_compute in E. discriminate.
Defined.

(* ================================================================== *)
(** * The cursor and the visible order *)

(** No entry of the visible flat order is hidden. *)
Lemma shown_flatten st roots :
  shown st (flatten st roots) = len (flatten st roots).
Proof.
  unfold shown, len. f_equal. f_equal.
  change (elems (flatten st roots)) with (visible st roots).
  pose proof (visible_not_hidden st roots) as H.
  induction (visible st roots) as [|x l IH]; [reflexivity|].
  cbn [filter]. rewrite (H x) by now left. cbn [negb].
  f_equal. apply IH. intros n Hn. apply H. now right.
Qed.

Section VisibleOrder.

Context {provider : Provider} {toolkit : Toolkit}.

Lemma showsVisibleOrder_wellformed roots m st :
  showsVisibleOrder roots m st ->
  visibleCount m = len (flatten st roots) /\ linesIndexed m st.
Proof.
  intros (Hn & Hl & Hmax). unfold linesIndexed, visibleCount.
  rewrite Hl, Hn in *. rewrite shown_flatten. repeat split; auto. lia.
Qed.

(** One move over a model that shows the visible order: the order is what
    it was, the model still shows it, and the cursor stops at its ends. *)
Lemma move_in_visible_order (mv : Move) roots m st :
  showsVisibleOrder roots m st ->
  0 <= cursor m <= len (flatten st roots) - 1 ->
  fits mv m ->
  exists m' st',
    move mv m st = Some ((m', noop), st') /\
    flatten st' roots = flatten st roots /\
    showsVisibleOrder roots m' st' /\
    cursor m' =
      match mv with
      | Up n => Z.max (cursor m - n) 0
      | Down n => Z.min (cursor m + n) (len (flatten st roots) - 1)
      end.
Proof.
  intros Hshow Hcur Hfit.
  destruct (showsVisibleOrder_wellformed roots m st Hshow) as [Hv Hlines].
  assert (Hin : cursorInRange m) by (unfold cursorInRange; now rewrite Hv).
  destruct (move_exact mv m st Hin Hlines Hfit)
    as (m' & st' & Hmove & Hc & Hn & Hv' & _ & Hst).
  assert (Hord : sameOrder st st').
  { destruct Hst as [[-> _] | (p & q & _ & _ & ->)];
      [apply sameOrder_refl | apply sameOrder_reselect]. }
  assert (Hflat : flatten st' roots = flatten st roots).
  { apply flatten_loop_ext; intro c;
      destruct (Hord c) as (A1 & A2 & A3); assumption. }
  exists m', st'. split; [exact Hmove|]. split; [exact Hflat|]. split.
  - destruct Hshow as (H1 & H2 & H3). unfold showsVisibleOrder.
    unfold visibleCount in Hv'. rewrite Hflat, Hv', Hn. auto.
  - rewrite Hc. destruct mv; cbn [target]; [reflexivity|].
    now rewrite Hv.
Qed.

End VisibleOrder.

(** C7, as the code has it.  The visible count is the length of the
    visible flat order of the roots, flattened afresh.  From a model that
    shows that order, one line of the viewport for each of its nodes, with
    the cursor on one of the lines, every sequence of [MoveUp(n)] and
    [MoveDown(n)] with [n >= 0] in which no [cursor + n] exceeds the
    largest [int] runs without a panic; it leaves the visible order as it
    was, and the cursor where moves that stop at the first and at the last
    visible node take it: a move past either end lands on that end, and the
    cursor is within [[0, visibleCount - 1]] at the end. *)
Theorem moves_keep_cursor_in_range {provider : Provider} {toolkit : Toolkit}
  (roots : Nodes) (l : list Move) :
  forall (m : Model) (st : States),
    showsVisibleOrder roots m st ->
    0 <= cursor m <= len (flatten st roots) - 1 ->
    withinInt l (cursor m) (len (flatten st roots) - 1) ->
    exists m' st',
      moves l m st = Some (m', st') /\
      flatten st' roots = flatten st roots /\
      showsVisibleOrder roots m' st' /\
      cursor m' = landing l (cursor m) (len (flatten st roots) - 1) /\
      0 <= cursor m' <= len (flatten st' roots) - 1.
Proof.
  induction l as [|mv l IH]; intros m st Hshow Hcur Hfit.
  - exists m, st. cbn [moves landing]. auto.
  - assert (Hmv : fits mv m /\
                  withinInt l
                    match mv with
                    | Up n => Z.max (cursor m - n) 0
                    | Down n =>
                        Z.min (cursor m + n) (len (flatten st roots) - 1)
                    end (len (flatten st roots) - 1)).
    { destruct mv; cbn [withinInt fits] in *; tauto. }
    destruct Hmv as [Hfit1 Hrest].
    destruct (move_in_visible_order mv roots m st Hshow Hcur Hfit1)
      as (m1 & st1 & Hmove & Hflat1 & Hshow1 & Hc1).
    rewrite <- Hc1, <- Hflat1 in Hrest.
    destruct (IH m1 st1 Hshow1)
      as (m' & st' & Hmoves & Hflat & Hshow' & Hc' & Hin');
      [ rewrite Hflat1, Hc1; destruct mv; cbn [fits] in Hfit1; lia
      | exact Hrest | ].
    exists m', st'. split; [|split; [|split; [|split]]].
    + cbn [moves]. unfold bind. rewrite Hmove. exact Hmoves.
    + congruence.
    + exact Hshow'.
    + rewrite Hc', Hflat1, Hc1. destruct mv; reflexivity.
    + exact Hin'.
Qed.

(** Down past the end, up by one and down by the largest amount that
    fits, over the five visible nodes of the sample tree: the cursor ends
    on the last of them. *)
Lemma moves_keep_cursor_in_range_witness :
  let m := fst Sample.started in
  let st := snd Sample.started in
  exists m' st',
    moves [Down 9; Up 1; Down (GoInt.int_max - 3)] m st = Some (m', st') /\
    flatten st' Sample.forest = flatten st Sample.forest /\
    showsVisibleOrder Sample.forest m' st' /\
    cursor m' = 4 /\
    0 <= cursor m' <= len (flatten st' Sample.forest) - 1.
Proof.
  intros m st.
  apply (moves_keep_cursor_in_range Sample.forest
           [Down 9; Up 1; Down (GoInt.int_max - 3)] m st).
  - unfold showsVisibleOrder. vm_compute. intuition discriminate.
  - vm_compute. intuition discriminate.
  - vm_compute. intuition discriminate.
Defined.

(** C7, as the claim states it, fails twice over the sample tree, built
    expanded with the visible order [root, a, a1, a2, b].  With the cursor
    on line 1, [MoveDown] by the largest [int] wraps [cursor + n] around
    to the smallest [int], and selecting the node at that index panics on
    a nil node.  And once the key that moves down and the key that
    collapses have been handled, the visible order is [root, a, b] while
    the viewport still holds five lines: [MoveDown(3)] then rests the
    cursor on line 4, beyond the three visible nodes. *)
Lemma moves_leave_the_visible_order :
  let m := fst Sample.started in
  let st := snd Sample.started in
  New Sample.forest Sample.expanded = Some (m, st) /\
  cursor m = 0 /\
  visible st Sample.forest =
    [Sample.root; Sample.a; Sample.a1; Sample.a2; Sample.b] /\
  (exists m1 st1,
     MoveDown 1 m st = Some ((m1, noop), st1) /\
     cursor m1 = 1 /\
     0 <= GoInt.int_max /\
     GoInt.add (cursor m1) GoInt.int_max = GoInt.int_min /\
     MoveDown GoInt.int_max m1 st1 = None) /\
  (exists m1 st1 m2 st2 m3 st3,
     Focus m st = Some (withFocus true m, st) /\
     Update (KeyMsg "down") (withFocus true m) st = Some ((m1, noop), st1) /\
     Update (KeyMsg "enter") m1 st1 = Some ((m2, noop), st2) /\
     cursor m2 = 1 /\
     visible st2 Sample.forest = [Sample.root; Sample.a; Sample.b] /\
     MoveDown 3 m2 st2 = Some ((m3, noop), st3) /\
     visible st3 Sample.forest = [Sample.root; Sample.a; Sample.b] /\
     len (flatten st3 Sample.forest) = 3 /\
     visibleCount m3 = 5 /\
     cursor m3 = 4).
Proof.
  intros m st.
  split; [reflexivity|].
  split; [reflexivity|].
  split; [reflexivity|].
  split.
  - destruct (MoveDown 1 m st) as [[[m1 c] st1]|] eqn:E.
    + exists m1, st1. destruct c.
      split; [reflexivity|].
      vm_compute in E. inversion E; subst. clear E.
      vm_compute. intuition discriminate.
    + vm_compute in E. discriminate.
  - destruct (Update (KeyMsg "down") (withFocus true m) st)
      as [[[m1 c1] st1]|] eqn:E1; [|vm_compute in E1; discriminate].
    destruct (Update (KeyMsg "enter") m1 st1)
      as [[[m2 c2] st2]|] eqn:E2;
      [|vm_compute in E1; inversion E1; subst; vm_compute in E2;
        discriminate].
    destruct (MoveDown 3 m2 st2)
      as [[[m3 c3] st3]|] eqn:E3;
      [|vm_compute in E1; inversion E1; subst; vm_compute in E2;
        inversion E2; subst; vm_compute in E3; discriminate].
    exists m1, st1, m2, st2, m3, st3. destruct c1, c2, c3.
    split; [reflexivity|].
    split; [reflexivity|]. split; [exact E2|].
    vm_compute in E1; inversion E1; subst; clear E1.
    vm_compute in E2; inversion E2; subst; clear E2.
    split; [reflexivity|]. split; [reflexivity|]. split; [exact E3|].
    vm_compute in E3; inversion E3; subst; clear E3.
    repeat split; reflexivity.
Qed.

(* ================================================================== *)
(** * The file system example *)

(** X21.  [isUnixHiddenFile] holds exactly for the names of more than two
    bytes that start with a dot: the test for two leading dots adds
    nothing, and the names [.], [..] and a dot followed by one byte are not
    hidden. *)
Theorem isUnixHiddenFile_iff (name : string) :
  Example.isUnixHiddenFile name = true <->
  (2 < String.length name)%nat /\
  String.get 0 name = Some (Ascii.ascii_of_nat 46).
Proof.
  unfold Example.isUnixHiddenFile.
  rewrite andb_true_iff, Z.ltb_lt, orb_true_iff.
  split.
  - intros [Hlen Hdot]. split; [lia|].
    destruct name as [|c1 [|c2 rest]]; cbn in Hlen; try lia.
    cbn in Hdot. cbn.
    assert (H1 : Ascii.eqb c1 (Ascii.ascii_of_nat 46) = true).
    { destruct Hdot as [Hdot|Hdot]; [exact Hdot|].
      destruct (Ascii.eqb c1 _); [reflexivity | discriminate]. }
    apply Ascii.eqb_eq in H1. now subst.
  - intros [Hlen Hget]. split; [lia|]. left.
    rewrite Hget. reflexivity.
Qed.

Lemma find_app {A} (f : A -> bool) (l1 l2 : list A) :
  find f (l1 ++ l2) =
  match find f l1 with
  | Some x => Some x
  | None => find f l2
  end.
Proof.
  induction l1 as [|x l1 IH]; cbn; [reflexivity|].
  destruct (f x); [reflexivity | exact IH].
Qed.

(** X22.  [findNodeByPath] returns the first node, parents before children
    and siblings in order, whose cleaned path is the cleaned path asked
    for: a node of the forest with that path when one exists, and nil
    exactly when none has it. *)
Theorem findNodeByPath_is_first_match (Clean : string -> string)
  (path : Node -> string) (p : string) (ns : Nodes) :
  let matches := fun n => String.eqb (Clean (path n)) (Clean p) in
  Example.findNodeByPath Clean path ns p = find matches (allNodes ns) /\
  (forall n, Example.findNodeByPath Clean path ns p = Some n ->
             In n (allNodes ns) /\ Clean (path n) = Clean p) /\
  (Example.findNodeByPath Clean path ns p = None <->
   forall n, In n (allNodes ns) -> Clean (path n) <> Clean p).
Proof.
  intro matches.
  assert (E : forall ns,
            Example.findNodeByPath Clean path ns p
            = find matches (allNodes ns)).
  { apply forest_ind; [reflexivity|].
    intros t rest IHc IHr. cbn [Example.findNodeByPath allNodes find].
    fold (matches t). destruct (matches t); [reflexivity|].
    now rewrite find_app, IHc, IHr. }
  split; [apply E|]. rewrite E. split.
  - intros n H. apply find_some in H. destruct H as [Hin Hm].
    split; [exact Hin|]. now apply String.eqb_eq.
  - split.
    + intros H n Hin Heq.
      pose proof (find_none _ _ H n Hin) as Hm. unfold matches in Hm.
      apply String.eqb_neq in Hm. contradiction.
    + intros H. destruct (find matches (allNodes ns)) as [n|] eqn:Hf;
        [|reflexivity].
      apply find_some in Hf. destruct Hf as [Hin Hm].
      apply String.eqb_eq in Hm. exfalso. exact (H n Hin Hm).
Qed.

(* ================================================================== *)
(** * More on the indices of a slice and on the prefix of a line *)

(** X23.  On a slice of at most the largest [int] entries [at] finds a
    node, one that is not hidden, at every index from 0 up to the number of
    entries that are not hidden: under a cursor that stays below that
    number there is always a node. *)
Theorem at_finds_shown_entries (st : States) (ns : Nodes) (i : Z) :
  len ns <= GoInt.int_max -> 0 <= i < shown st ns ->
  exists n, Nodes_at st ns i = Some n /\ isHidden st n = false.
Proof.
  intros Hlen Hi.
  destruct (at_loop_top st ns i 0) as [n Hn]; [lia | lia | lia |].
  exists n. split; [exact Hn|].
  apply (atOrder_not_hidden st ns). now apply (at_loop_in_atOrder st ns i 0).
Qed.

Lemma at_finds_shown_entries_witness :
  exists n,
    Nodes_at (snd Sample.started) (nodes (fst Sample.started)) 4 = Some n /\
    isHidden (snd Sample.started) n = false.
Proof.
  apply (at_finds_shown_entries (snd Sample.started)
           (nodes (fst Sample.started)) 4).
  - vm_compute. discriminate.
  - vm_compute. split; [discriminate | reflexivity].
Defined.

Lemma string_append_assoc (a b c : string) :
  ((a ++ b) ++ c = a ++ (b ++ c))%string.
Proof. induction a as [|x a IH]; cbn; [reflexivity | now rewrite IH]. Qed.

(** The columns [pos, pos + 1, ...], [count] of them. *)
Fixpoint columns (count : nat) (pos : Z) : list Z :=
  match count with
  | O => []
  | S k => pos :: columns k (pos + 1)
  end.

Section Prefix.

Context {provider : Provider} {toolkit : Toolkit}.

(** The glyph of column [pos] of a node at depth [d]. *)
Definition glyphAt (m : Model) (st : States) (n : Node) (d pos : Z)
  : string :=
  let s := Symbol (styles m) in
  if pos =? d
  then if isLastNode st n
       then RenderTerminator s (symbols m) pos
       else RenderStarter s (symbols m) pos
  else match ancestor (Z.to_nat (d - pos)) n with
       | Some a =>
           if isLastNode st a
           then Padding s (symbols m) pos
           else RenderConnector s (symbols m) pos
       | None => Padding s (symbols m) pos
       end.

Lemma getTreeSymbolForPos_glyphAt m st n d pos :
  0 <= pos <= d -> d <= GoInt.int_max ->
  getTreeSymbolForPos m st (Some n) pos d = Some (glyphAt m st n d pos).
Proof.
  intros Hpos Hd. unfold getTreeSymbolForPos, glyphAt, hasPaddingAtPos.
  destruct (Z.gtb_spec pos d); [lia|].
  destruct (Z.eqb_spec pos d) as [->|Hne].
  - destruct (Z.ltb_spec d d); [lia|].
    destruct (isLastNode st n); reflexivity.
  - rewrite sub_exact by int_lia.
    rewrite hasPaddingAtPos_loop_ancestor.
    destruct (ancestor (Z.to_nat (d - pos)) n) as [a|]; [|reflexivity].
    destruct (isLastNode st a); [reflexivity|].
    destruct (Z.ltb_spec pos d); [reflexivity | lia].
Qed.

Lemma renderSymbols_loop_columns m st n d :
  d < GoInt.int_max ->
  forall count pos prefix,
    0 <= pos -> pos + Z.of_nat count = d + 1 ->
    renderSymbols_loop m st n d count pos prefix =
    Some (prefix ++
          fold_right String.append EmptyString
            (map (glyphAt m st n d) (columns count pos)))%string.
Proof.
  intros Hd.
  induction count as [|k IH]; intros pos prefix Hpos Hsum;
    cbn [renderSymbols_loop columns map fold_right].
  - f_equal. induction prefix as [|c s IHs]; cbn; [reflexivity|].
    now rewrite <- IHs.
  - rewrite getTreeSymbolForPos_glyphAt by int_lia.
    rewrite add_exact by int_lia.
    rewrite IH by lia. now rewrite string_append_assoc.
Qed.

(** X24.  The branch glyphs of a line are one glyph for each column
    [0 .. d], [d] being the depth of the node: left of the node's own
    column the padding where the ancestor of that column is a [LastChild]
    and the connector where it is not, and in the node's own column the
    terminator if the node is a [LastChild], the starter otherwise.  The
    function does not panic on a node. *)
Theorem line_prefix_by_columns (m : Model) (st : States) (n : Node) :
  Z.of_nat (height n) < GoInt.int_max ->
  let d := getDepth (Some n) in
  renderSymbolsForSingleLineNode m st n =
  Some (fold_right String.append EmptyString
          (map (glyphAt m st n d) (columns (Z.to_nat (d + 1)) 0))).
Proof.
  intros Hh d. unfold renderSymbolsForSingleLineNode. fold d.
  assert (Hd : 0 <= d <= Z.of_nat (height n)).
  { destruct (root_exists (S (height n)) n) as (k & r & Hk & Hr); [lia|].
    pose proof (ancestor_height k n r Hk).
    unfold d. rewrite (getDepth_hops n k r) by (auto; lia). lia. }
  rewrite renderSymbols_loop_columns by lia.
  reflexivity.
Qed.

End Prefix.

(** The line of [a1] in the sample tree: three columns. *)
Lemma line_prefix_by_columns_witness :
  let m := fst Sample.started in
  let st := snd Sample.started in
  let d := getDepth (Some Sample.a1) in
  renderSymbolsForSingleLineNode m st Sample.a1 =
  Some (fold_right String.append EmptyString
          (map (glyphAt m st Sample.a1 d) (columns (Z.to_nat (d + 1)) 0))).
Proof.
  intros m st.
  apply (line_prefix_by_columns m st Sample.a1).
  vm_compute. reflexivity.
Defined.
